(** * LipNet preprocessing: a shallow embedding of [utils/preprocess_data.py]

    The development models the three parts of the preprocessing module:
    - [Video]: mouth cropping ([get_frames_mouth]) and tensor packing
      ([set_data]);
    - [Align]: transcript parsing, filler stripping and label padding;
    - [preprocess]: the batch driver over speaker indices.

    Python values are modelled as follows.  Integers are [Z]; Python floats
    and NumPy float64 are Rocq's primitive binary64 floats; strings are
    [string] read as sequences of code points below 256; exceptions are the
    constructors of [exn] and a computation that may raise returns a
    [result]; NumPy arrays are a shape together with an indexing function;
    Python sets of integers are [gset Z]; the [_params] dictionary is a
    [gmap string string]. *)

From Stdlib Require Import ZArith List String Ascii Floats Bool Lia.
From Stdlib Require Import DecimalString DecimalPos DecimalN.
From stdpp Require Import base option list gmap strings sorting.
Import ListNotations.

Local Open Scope string_scope.
Local Open Scope list_scope.
Local Open Scope Z_scope.
Set Warnings "-inexact-float,-clear-no-such-hyp".

(** ** Python built-ins *)

Module Py.

(** The exception classes the module can raise or catch.  [OSError] carries
    its [errno]; [OtherError] stands for any exception class not listed. *)
Inductive exn : Type :=
| OSError (errno : Z)
| ValueError
| IndexError
| KeyError
| TypeError
| ZeroDivisionError
| OverflowError
| AttributeError
| OtherError (name : string).

Definition is_OSError (e : exn) : bool :=
  match e with OSError _ => true | _ => false end.

Inductive result (A : Type) : Type :=
| Ok (a : A)
| Raise (e : exn).
Arguments Ok {A} a.
Arguments Raise {A} e.

#[export] Instance result_ret : MRet result := fun A a => Ok a.
#[export] Instance result_bind : MBind result := fun A B f m =>
  match m with Ok a => f a | Raise e => Raise e end.

Definition raises {A} (m : result A) : Prop := exists e, m = Raise e.

(** *** Floats *)

(** [float(z)]: the binary64 nearest to the integer [z]. *)
Definition float_of_Z (z : Z) : float :=
  SF2Prim (binary_normalize prec emax z 0 false).

Definition Z_as_spec_float (z : Z) : spec_float :=
  match z with
  | Z0 => S754_zero false
  | Zpos p => S754_finite false p 0
  | Zneg p => S754_finite true p 0
  end.

(** [a / b] on two Python integers (true division): the correctly rounded
    quotient, [ZeroDivisionError] when [b] is zero and [OverflowError] when
    the quotient is too large for a float. *)
Definition int_truediv (a b : Z) : result float :=
  if b =? 0 then Raise ZeroDivisionError
  else
    let q := SFdiv prec emax (Z_as_spec_float a) (Z_as_spec_float b) in
    match q with
    | S754_infinity _ | S754_nan => Raise OverflowError
    | _ => Ok (SF2Prim q)
    end.

(** [a / b] on two Python floats. *)
Definition float_truediv (a b : float) : result float :=
  if PrimFloat.eqb b 0%float then Raise ZeroDivisionError
  else Ok (a / b)%float.

(** [int(x)] on a float: truncation toward zero. *)
Definition int_of_float (x : float) : result Z :=
  match Prim2SF x with
  | S754_zero _ => Ok 0
  | S754_finite s m e =>
      let v := match e with
               | Zneg k => Z.shiftr (Zpos m) (Zpos k)
               | _ => Z.shiftl (Zpos m) e
               end in
      Ok (if s then - v else v)
  | S754_infinity _ => Raise OverflowError
  | S754_nan => Raise ValueError
  end.

(** *** Strings *)

(** [c.isspace()] for a code point below 256. *)
Definition isspace (c : ascii) : bool :=
  let n := nat_of_ascii c in
  ((9 <=? n) && (n <=? 13) || (28 <=? n) && (n <=? 32)
   || (n =? 133) || (n =? 160))%nat.

Fixpoint lstrip (s : string) : string :=
  match s with
  | EmptyString => EmptyString
  | String c r => if isspace c then lstrip r else s
  end.

Fixpoint rstrip (s : string) : string :=
  match s with
  | EmptyString => EmptyString
  | String c r =>
      match rstrip r with
      | EmptyString => if isspace c then EmptyString else String c EmptyString
      | r' => String c r'
      end
  end.

(** [s.strip()] *)
Definition strip (s : string) : string := rstrip (lstrip s).

(** [s.split(sep)] for a one-character separator: never the empty list. *)
Fixpoint split (sep : ascii) (s : string) : list string :=
  match s with
  | EmptyString => [EmptyString]
  | String c r =>
      if Ascii.eqb c sep then EmptyString :: split sep r
      else match split sep r with
           | h :: t => String c h :: t
           | [] => [String c EmptyString]
           end
  end.

(** [sep.join(l)] *)
Fixpoint join (sep : string) (l : list string) : string :=
  match l with
  | [] => EmptyString
  | [x] => x
  | x :: rest => x +:+ sep +:+ join sep rest
  end.

Definition digit_value (c : ascii) : option Z :=
  let n := nat_of_ascii c in
  if ((48 <=? n) && (n <=? 57))%nat then Some (Z.of_nat n - 48) else None.

(** Decimal digits with single underscores allowed between two digits. *)
Fixpoint int_digits (acc : Z) (after_digit : bool) (s : string) : option Z :=
  match s with
  | EmptyString => if after_digit then Some acc else None
  | String c r =>
      match digit_value c with
      | Some d => int_digits (acc * 10 + d) true r
      | None =>
          if Ascii.eqb c "_"%char && after_digit then int_digits acc false r
          else None
      end
  end.

(** [int(s)] on a string, base ten: surrounding whitespace, an optional
    sign, then the digits.  (The interpreter's cap on the number of digits is
    not modelled.) *)
Definition int_of_string (s : string) : result Z :=
  let body := strip s in
  let parsed :=
    match body with
    | String "-"%char r => Z.opp <$> int_digits 0 false r
    | String "+"%char r => int_digits 0 false r
    | _ => int_digits 0 false body
    end in
  match parsed with Some z => Ok z | None => Raise ValueError end.

(** [str(z)] *)
Definition str (z : Z) : string := NilZero.string_of_int (Z.to_int z).

(** ["{0:03d}".format(z)]: the decimal digits of [|z|] padded with zeros on
    the left to a total width of three, the sign included. *)
Definition format_03d (z : Z) : string :=
  let digits := NilZero.string_of_uint (N.to_uint (Z.abs_N z)) in
  let sign := if z <? 0 then "-" else "" in
  let width := (String.length sign + String.length digits)%nat in
  sign +:+ string_of_list_ascii (repeat "0"%char (3 - width))
       +:+ digits.

(** [l[i]] for a non-negative index. *)
Definition getitem {A} (l : list A) (i : nat) : result A :=
  match nth_error l i with Some x => Ok x | None => Raise IndexError end.

(** [a <= b] on strings: the order of the code points. *)
Definition str_le (a b : string) : Prop := String.leb a b = true.

#[export] Instance str_le_dec (a b : string) : Decision (str_le a b).
Proof. unfold str_le. apply _. Defined.

(** [sorted(l)] on a list of strings *)
Definition sorted (l : list string) : list string := merge_sort str_le l.

(** [range(a, b)] *)
Definition range (a b : Z) : list Z := seqZ a (b - a).

End Py.
Export Py.

(** ** NumPy arrays *)

Module Np.

(** An array is its shape and its indexing function; only the indices within
    the shape are meaningful.  Views ([swapaxes], [rollaxis], slices) are
    re-indexings, as in NumPy. *)
Record ndarray : Type := { shape : list nat; item : list nat -> Z }.

Definition ndim (a : ndarray) : nat := length (shape a).

Definition empty_array : ndarray := {| shape := [0%nat]; item := fun _ => 0 |}.

Definition swap_at {A} (a b : nat) (l : list A) : list A :=
  imap (fun k x =>
          if (k =? a)%nat then default x (l !! b)
          else if (k =? b)%nat then default x (l !! a)
          else x) l.

(** [arr.swapaxes(a, b)]; an axis out of bounds raises [AxisError], a
    subclass of [ValueError]. *)
Definition swapaxes (a b : nat) (arr : ndarray) : result ndarray :=
  if ((a <? ndim arr) && (b <? ndim arr))%nat
  then Ok {| shape := swap_at a b (shape arr);
             item := fun idx => item arr (swap_at a b idx) |}
  else Raise ValueError.

(** [np.rollaxis(arr, axis)]: axis [axis] becomes the first one. *)
Definition rollaxis (arr : ndarray) (axis : nat) : result ndarray :=
  match shape arr !! axis with
  | Some n =>
      Ok {| shape := n :: take axis (shape arr) ++ drop (S axis) (shape arr);
            item := fun idx =>
                      match idx with
                      | i :: rest => item arr (take axis rest ++ i :: drop axis rest)
                      | [] => 0
                      end |}
  | None => Raise ValueError
  end.

(** [np.array(l)] on a list of arrays: the arrays are stacked along a new
    first axis.  On arrays of different shapes NumPy either raises
    [ValueError] at once or builds a one-dimensional array of objects, on
    which the axis operations that follow in [set_data] raise it. *)
Definition array (l : list ndarray) : result ndarray :=
  match l with
  | [] => Ok empty_array
  | a :: rest =>
      if forallb (fun b => bool_decide (shape b = shape a)) rest
      then Ok {| shape := length l :: shape a;
                 item := fun idx =>
                           match idx with
                           | t :: idx' => item (nth t l empty_array) idx'
                           | [] => 0
                           end |}
      else Raise ValueError
  end.

(** The start and the length of [start:stop] on an axis of length [n]. *)
Definition slice_bounds (n : nat) (start stop : Z) : nat * nat :=
  let clamp v :=
    let v := if v <? 0 then v + Z.of_nat n else v in
    if v <? 0 then 0 else if Z.of_nat n <? v then Z.of_nat n else v in
  (Z.to_nat (clamp start), Z.to_nat (clamp stop - clamp start)).

(** [arr[t:b, l:r]] *)
Definition slice2 (arr : ndarray) (t b l r : Z) : result ndarray :=
  match shape arr with
  | h :: w :: rest =>
      let '(t0, hn) := slice_bounds h t b in
      let '(l0, wn) := slice_bounds w l r in
      Ok {| shape := hn :: wn :: rest;
            item := fun idx =>
                      match idx with
                      | i :: j :: idx' => item arr ((t0 + i)%nat :: (l0 + j)%nat :: idx')
                      | _ => 0
                      end |}
  | _ => Raise IndexError
  end.

(** [np.mean] of a column of integers: the float64 sum divided by the count. *)
Definition mean (xs : list Z) : float :=
  (fold_left (fun acc x => acc + float_of_Z x) xs 0 / float_of_Z (Z.of_nat (length xs)))%float.

(** [np.min] and [np.max] of a non-empty column of integers. *)
Definition min (x : Z) (xs : list Z) : Z := fold_left Z.min xs x.
Definition max (x : Z) (xs : list Z) : Z := fold_left Z.max xs x.

(** [np.ones(n)]: a negative length raises [ValueError]. *)
Definition ones (n : Z) : result (list float) :=
  if n <? 0 then Raise ValueError else Ok (repeat 1%float (Z.to_nat n)).

End Np.
Export Np(ndarray, shape, item, ndim).

(** ** The libraries and the file system

    What the module gets from the operating system and from its imports
    (os, fnmatch, skvideo, dlib, scipy, skimage).  [world] is the state of the
    file system.  [os_walk] gives the [(root, files)] pairs [os.walk]
    produces, as one listing taken when the walk starts. *)

Class Platform : Type := {
  world : Type;
  detection : Type;
  os_walk : world -> string -> list (string * list string);
  fnmatch : string -> string -> bool;
  os_makedirs : world -> string -> world * result unit;
  os_path_isdir : world -> string -> bool;
  vreader : world -> string -> result (list ndarray);
  get_frontal_face_detector : ndarray -> list detection;
  shape_predictor : world -> string -> result (ndarray -> detection -> list (Z * Z));
  imresize : ndarray -> Z * Z -> result ndarray;
  imsave : world -> string -> ndarray -> world * result unit
}.

(** Code that reads or writes the file system and may raise. *)
Definition io `{Platform} (A : Type) : Type := world -> world * result A.

#[export] Instance io_ret `{Platform} : MRet io := fun A a w => (w, Ok a).
#[export] Instance io_bind `{Platform} : MBind io := fun A B f m w =>
  match m w with
  | (w', Ok a) => f a w'
  | (w', Raise e) => (w', Raise e)
  end.

(** A computation that only reads the world. *)
Definition reading `{Platform} {A} (f : world -> result A) : io A :=
  fun w => (w, f w).

(** ** class Video *)

Module Video.

Record t : Type := {
  face_predictor_path : option string;
  vtype : string;
  face : option (list ndarray);
  mouth : option (list ndarray);
  data : option ndarray;
  length : option nat
}.

(** The state of the loop of [get_frames_mouth]. *)
Record crop_state : Type := {
  normalize_ratio : option float;
  mouth_frames : list ndarray
}.

Definition mouth_width : Z := 100.
Definition mouth_height : Z := 50.
Definition horizontal_pad : float := 0.19%float.

Definition initial_state : crop_state :=
  {| normalize_ratio := None; mouth_frames := [] |}.

(** The loop over [shape.parts()]: [i] is the counter before its increment;
    the points at positions 48 and above are kept. *)
Fixpoint mouth_points_from (i : Z) (parts : list (Z * Z)) : list (Z * Z) :=
  match parts with
  | [] => []
  | part :: rest =>
      let i := i + 1 in
      if i <? 48 then mouth_points_from i rest
      else part :: mouth_points_from i rest
  end.

Definition mouth_points (parts : list (Z * Z)) : list (Z * Z) :=
  mouth_points_from (-1) parts.

(** [np.mean(np_mouth_points[:, -2:], axis=0)]; indexing the array built from
    an empty list of points with two indices raises [IndexError]. *)
Definition mouth_centroid (points : list (Z * Z)) : result (float * float) :=
  match points with
  | [] => Raise IndexError
  | _ => Ok (Np.mean (map fst points), Np.mean (map snd points))
  end.

(** Lines 153 to 156: the ratio from the padded horizontal extent. *)
Definition compute_ratio (points : list (Z * Z)) : result float :=
  match map fst points with
  | [] => Raise IndexError
  | x :: xs =>
      let mouth_left := (float_of_Z (Np.min x xs) * (1 - horizontal_pad))%float in
      let mouth_right := (float_of_Z (Np.max x xs) * (1 + horizontal_pad))%float in
      float_truediv (float_of_Z mouth_width) (mouth_right - mouth_left)%float
  end.

Section Detector.

(** The collaborators: dlib's face detector and shape predictor and
    [scipy.misc.imresize]. *)
Context {Det : Type}.
Variable detector : ndarray -> list Det.
Variable predictor : ndarray -> Det -> list (Z * Z).
Variable imresize : ndarray -> Z * Z -> result ndarray.

(** The loop over the detections keeps the shape of the last one. *)
Definition detect_shape (frame : ndarray) : option (list (Z * Z)) :=
  fold_left (fun _ det => Some (predictor frame det)) (detector frame) None.

(** Lines 158 to 169: resize by the ratio and crop around the scaled
    centroid. *)
Definition crop_frame (ratio : float) (frame : ndarray)
    (centroid : float * float) : result ndarray :=
  h ← getitem (shape frame) 0;
  new_h ← int_of_float (float_of_Z (Z.of_nat h) * ratio)%float;
  w ← getitem (shape frame) 1;
  new_w ← int_of_float (float_of_Z (Z.of_nat w) * ratio)%float;
  resized_img ← imresize frame (new_h, new_w);
  let cx := (fst centroid * ratio)%float in
  let cy := (snd centroid * ratio)%float in
  half_w ← int_truediv mouth_width 2;
  half_h ← int_truediv mouth_height 2;
  mouth_l ← int_of_float (cx - half_w)%float;
  mouth_r ← int_of_float (cx + half_w)%float;
  mouth_t ← int_of_float (cy - half_h)%float;
  mouth_b ← int_of_float (cy + half_h)%float;
  Np.slice2 resized_img mouth_t mouth_b mouth_l mouth_r.

(** One iteration of the loop over the frames: [None] is the early
    [return frames]. *)
Definition frame_step (st : crop_state) (frame : ndarray)
    : result (option crop_state) :=
  match detect_shape frame with
  | None => Ok None
  | Some parts =>
      let points := mouth_points parts in
      centroid ← mouth_centroid points;
      ratio ← match normalize_ratio st with
              | None => compute_ratio points
              | Some r => Ok r
              end;
      crop ← crop_frame ratio frame centroid;
      Ok (Some {| normalize_ratio := Some ratio;
                  mouth_frames := mouth_frames st ++ [crop] |})
  end.

Fixpoint frames_loop (st : crop_state) (frames : list ndarray)
    : result (option crop_state) :=
  match frames with
  | [] => Ok (Some st)
  | frame :: rest =>
      r ← frame_step st frame;
      match r with
      | None => Ok None
      | Some st' => frames_loop st' rest
      end
  end.

Definition get_frames_mouth (frames : list ndarray) : result (list ndarray) :=
  r ← frames_loop initial_state frames;
  Ok (match r with
      | None => frames
      | Some st => mouth_frames st
      end).

(** [img] is the crop of [frame] made with the ratio [r] and the frame's
    own mouth centroid. *)
Definition cropped_with (r : float) (frame img : ndarray) : Prop :=
  exists parts centroid,
    detect_shape frame = Some parts
    /\ mouth_centroid (mouth_points parts) = Ok centroid
    /\ crop_frame r frame centroid = Ok img.

End Detector.

(** The body of the loop of [set_data] for one frame. *)
Definition pack_frame (frame : ndarray) : result ndarray :=
  frame ← Np.swapaxes 0 1 frame;
  if (ndim frame <? 3)%nat
  then a ← Np.array [frame]; a ← Np.swapaxes 0 2 a; Np.swapaxes 0 1 a
  else Ok frame.

(** The shape of a frame once a frame without a channel axis is given one
    of length one. *)
Definition with_channel (s : list nat) : list nat :=
  if (List.length s =? 2)%nat then s ++ [1%nat] else s.

(** [set_data]: the packed array and the number of frames, which the method
    stores in [self.data] and [self.length]. *)
Definition set_data (self : t) (frames : list ndarray) : result t :=
  data_frames ← mapM pack_frame frames;
  let frames_n := List.length data_frames in
  data_frames ← Np.array data_frames;
  data_frames ← Np.rollaxis data_frames 3;
  data_frames ← Np.swapaxes 2 3 data_frames;
  Ok {| face_predictor_path := face_predictor_path self;
        vtype := vtype self;
        face := face self;
        mouth := mouth self;
        data := Some data_frames;
        length := Some frames_n |}.

Section Reading.

Context `{Platform}.

(** [Video(vtype, face_predictor_path)] *)
Definition init (vtype : string) (face_predictor_path : option string) : result t :=
  if String.eqb vtype "face" && bool_decide (face_predictor_path = None)
  then Raise AttributeError
  else Ok {| face_predictor_path := face_predictor_path;
             vtype := vtype;
             face := None; mouth := None; data := None; length := None |}.

(** [np.array([frame for frame in videogen])]: iterating over the array
    gives the frames again. *)
Definition get_video_frames (self : t) (path : string) (w : world)
    : result (list ndarray) :=
  vreader w path.

(** [self.face] and [self.mouth] hold [np.array] of a list of frames; they
    are modelled by the frames a loop over them yields. *)
Definition process_frames_face (self : t) (frames : list ndarray) (w : world)
    : result t :=
  let detector := get_frontal_face_detector in
  predictor ← match face_predictor_path self with
              | Some path => shape_predictor w path
              | None => Raise TypeError
              end;
  mouth_frames ← get_frames_mouth detector predictor imresize frames;
  set_data {| face_predictor_path := face_predictor_path self;
              vtype := vtype self;
              face := Some frames;
              mouth := Some mouth_frames;
              data := data self;
              length := length self |} mouth_frames.

Definition process_frames_mouth (self : t) (frames : list ndarray) : result t :=
  set_data {| face_predictor_path := face_predictor_path self;
              vtype := vtype self;
              face := Some frames;
              mouth := Some frames;
              data := data self;
              length := length self |} frames.

Definition handle_type (self : t) (frames : list ndarray) (w : world) : result t :=
  if String.eqb (vtype self) "mouth" then process_frames_mouth self frames
  else if String.eqb (vtype self) "face" then process_frames_face self frames w
  else Raise (OtherError "Exception").

Definition from_video (self : t) (path : string) (w : world) : result t :=
  frames ← get_video_frames self path w;
  handle_type self frames w.

Definition from_array (self : t) (frames : list ndarray) (w : world) : result t :=
  handle_type self frames w.

End Reading.

End Video.

(** ** class Align *)

Module Align.

(** One alignment record: start time, end time (seconds) and token. *)
Definition record : Type := float * float * string.

Definition token (r : record) : string := snd r.

Record t : Type := {
  label_func : option (string -> result (list Z));
  absolute_max_string_len : Z;
  align : option (list record);
  sentence : option string;
  label : option (list Z);
  padded_label : option (list float)
}.

(** [Align(absolute_max_string_len, label_func)] *)
Definition init (absolute_max_string_len : Z)
    (label_func : option (string -> result (list Z))) : t :=
  {| label_func := label_func;
     absolute_max_string_len := absolute_max_string_len;
     align := None; sentence := None; label := None; padded_label := None |}.

(** [x in items] on a list of strings *)
Definition member (x : string) (items : list string) : bool :=
  existsb (String.eqb x) items.

Definition strip (align : list record) (items : list string) : list record :=
  List.filter (fun sub => negb (member (token sub) items)) align.

Definition get_sentence (align : list record) : string :=
  join " " (map token (List.filter (fun y => negb (member (token y) ["sp"; "sil"])) align)).

(** Calling the default [label_func=None] raises [TypeError]. *)
Definition get_label (self : t) (sentence : string) : result (list Z) :=
  match label_func self with
  | Some f => f sentence
  | None => Raise TypeError
  end.

Definition get_padded_label (self : t) (label : list Z) : result (list float) :=
  ones ← Np.ones (absolute_max_string_len self - Z.of_nat (List.length label));
  let padding := map (fun one => (one * float_of_Z (-1))%float) ones in
  Ok (map float_of_Z label ++ padding).

(** [build] assigns the four attributes in order; the object keeps the
    attributes assigned before an exception. *)
Definition build (self : t) (records : list record) : t * result unit :=
  let self := {| label_func := label_func self;
                 absolute_max_string_len := absolute_max_string_len self;
                 align := Some (strip records ["sp"; "sil"]);
                 sentence := Some (get_sentence records);
                 label := label self;
                 padded_label := padded_label self |} in
  match get_label self (get_sentence records) with
  | Raise e => (self, Raise e)
  | Ok lbl =>
      let self := {| label_func := label_func self;
                     absolute_max_string_len := absolute_max_string_len self;
                     align := align self;
                     sentence := sentence self;
                     label := Some lbl;
                     padded_label := padded_label self |} in
      match get_padded_label self lbl with
      | Raise e => (self, Raise e)
      | Ok padded =>
          ({| label_func := label_func self;
              absolute_max_string_len := absolute_max_string_len self;
              align := align self;
              sentence := sentence self;
              label := label self;
              padded_label := Some padded |}, Ok ())
      end
  end.

(** [x.strip().split(" ")] *)
Definition fields (x : string) : list string := Py.split " " (Py.strip x).

(** One element of the comprehension of [from_file]:
    [(int(y[0])/1000, int(y[1])/1000, y[2])] with [y = x.strip().split(" ")]. *)
Definition parse_line (x : string) : result record :=
  let y := fields x in
  y0 ← getitem y 0;
  n0 ← int_of_string y0;
  t0 ← int_truediv n0 1000;
  y1 ← getitem y 1;
  n1 ← int_of_string y1;
  t1 ← int_truediv n1 1000;
  y2 ← getitem y 2;
  Ok (t0, t1, y2).

Definition parse_lines (lines : list string) : result (list record) :=
  mapM parse_line lines.

(** [from_file], given the lines [file.readlines()] returns. *)
Definition from_file (self : t) (lines : list string) : t * result unit :=
  match parse_lines lines with
  | Raise e => (self, Raise e)
  | Ok records => build self records
  end.

Definition from_array (self : t) (records : list record) : t * result unit :=
  build self records.

(** The three properties; before [build] the attributes are [None], and
    [None.split] raises [AttributeError], [len(None)] raises [TypeError]. *)
Definition word_length (self : t) : result nat :=
  match sentence self with
  | Some s => Ok (List.length (Py.split " " s))
  | None => Raise AttributeError
  end.

Definition sentence_length (self : t) : result nat :=
  match sentence self with
  | Some s => Ok (String.length s)
  | None => Raise TypeError
  end.

Definition label_length (self : t) : result nat :=
  match label self with
  | Some l => Ok (List.length l)
  | None => Raise TypeError
  end.

(** A line is well formed, with record [r], when it has at least three
    fields, the first two are integers that [int] accepts and whose
    thousandths fit a float, these quotients are the times of [r], and the
    third is the token of [r]. *)
Definition well_formed (line : string) (r : record) : Prop :=
  exists f0 f1 rest n0 n1,
    fields line = f0 :: f1 :: token r :: rest
    /\ int_of_string f0 = Ok n0 /\ int_truediv n0 1000 = Ok (fst (fst r))
    /\ int_of_string f1 = Ok n1 /\ int_truediv n1 1000 = Ok (snd (fst r)).

(** A record is a filler when its token is "sp" or "sil". *)
Definition is_filler (r : record) : Prop := token r = "sp" \/ token r = "sil".

#[export] Instance is_filler_dec (r : record) : Decision (is_filler r).
Proof. unfold is_filler. apply _. Defined.

End Align.

(** ** Paths *)

Module Path.

(** [os.path.join(a, b)] (POSIX) *)
Definition join (a b : string) : string :=
  match b with
  | String "/"%char _ => b
  | _ =>
      match last (list_ascii_of_string a) with
      | None | Some "/"%char => a +:+ b
      | Some _ => a +:+ "/" +:+ b
      end
  end.

(** [p.rfind(c)]: the position of the last [c] in [p], [-1] when absent. *)
Definition rfind (c : ascii) (p : string) : Z :=
  (fix go (i : Z) (found : Z) (l : list ascii) : Z :=
     match l with
     | [] => found
     | x :: rest => go (i + 1) (if Ascii.eqb x c then i else found) rest
     end) 0 (-1) (list_ascii_of_string p).

(** The scan of [rfind], by name: [i] is the position of the head of [l]
    and [found] the last position seen so far. *)
Definition rfind_from (c : ascii) : Z -> Z -> list ascii -> Z :=
  fix go (i : Z) (found : Z) (l : list ascii) : Z :=
    match l with
    | [] => found
    | x :: rest => go (i + 1) (if Ascii.eqb x c then i else found) rest
    end.

(** [os.path.splitext(p)[0]] (POSIX): the extension starts at the last dot
    of the last component, unless only dots precede it there. *)
Definition splitext_root (p : string) : string :=
  let sepIndex := rfind "/" p in
  let dotIndex := rfind "." p in
  if sepIndex <? dotIndex then
    let between :=
      substring (Z.to_nat (sepIndex + 1)) (Z.to_nat (dotIndex - sepIndex - 1)) p in
    if forallb (Ascii.eqb ".") (list_ascii_of_string between) then p
    else substring 0 (Z.to_nat dotIndex) p
  else p.

End Path.

(** ** Reading a directory of frames *)

Module VideoFiles.

Section Directory.

Context `{Platform}.

(** [os.listdir] and [scipy.ndimage.imread] *)
Variable os_listdir : world -> string -> result (list string).
Variable imread : world -> string -> result ndarray.


End Directory.

End VideoFiles.

(** ** Module-level functions *)

Section Driver.

Context `{Platform}.

Definition EEXIST : Z := 17.

Definition mkdir_p (path : string) : io unit := fun w =>
  match os_makedirs w path with
  | (w', Raise (OSError errno)) =>
      if (errno =? EEXIST) && os_path_isdir w' path then (w', Ok ())
      else (w', Raise (OSError errno))
  | r => r
  end.

Definition find_files (directory pattern : string) (w : world) : list string :=
  flat_map (fun '(root, files) =>
              map (Path.join root) (List.filter (fun basename => fnmatch basename pattern) files))
           (os_walk w directory).

Definition face_predictor_path : string := "./shape_predictor_68_face_landmarks.dat".
Definition source_exts : string := "*.mpg".

(** The loop over [video.mouth]. *)
Fixpoint save_frames (target_dir : string) (i : Z) (frames : list ndarray) : io unit :=
  match frames with
  | [] => mret ()
  | frame :: rest =>
      (fun w => imsave w (Path.join target_dir ("mouth_" +:+ format_03d i +:+ ".png")) frame);;
      save_frames target_dir (i + 1) rest
  end.

(** The body of the loop over the files of one index. *)
Definition process_file (target_path filepath : string) : io unit :=
  new_video ← reading (fun _ => Video.init "face" (Some face_predictor_path));
  video ← reading (Video.from_video new_video filepath);
  let filepath_wo_ext :=
    default "" (last (Py.split "/" (Path.splitext_root filepath))) in
  let target_dir := Path.join target_path filepath_wo_ext in
  mkdir_p target_dir;;
  frames ← reading (fun _ => match Video.mouth video with
                             | Some frames => Ok frames
                             | None => Raise TypeError
                             end);
  save_frames target_dir 0 frames.

Fixpoint process_files (target_path : string) (files : list string) : io unit :=
  match files with
  | [] => mret ()
  | filepath :: rest =>
      process_file target_path filepath;; process_files target_path rest
  end.

(** The body of the [try] for one index. *)
Definition process_index (source_path target_path : string) : io unit :=
  fun w => process_files target_path (find_files source_path source_exts w) w.

(** The variables of the loop of [preprocess]. *)
Record loop_state : Type := {
  source_path : string;
  succ : gset Z;
  fail : gset Z
}.

(** One iteration of the loop over the indices: [source_path] is extended,
    the files are processed, and the index is added to [succ], or to [fail]
    when an [OSError] is caught; any other exception propagates. *)
Definition next_source_path (st : loop_state) (idx : Z) : string :=
  source_path st +:+ "/" +:+ "s" +:+ str idx +:+ "/".

Definition index_step (target_path : string) (st : loop_state) (idx : Z)
    : io loop_state := fun w =>
  let source_path := next_source_path st idx in
  match process_index source_path target_path w with
  | (w', Ok _) =>
      (w', Ok {| source_path := source_path;
                 succ := succ st ∪ {[idx]};
                 fail := fail st |})
  | (w', Raise e) =>
      if is_OSError e
      then (w', Ok {| source_path := source_path;
                      succ := succ st;
                      fail := fail st ∪ {[idx]} |})
      else (w', Raise e)
  end.

Fixpoint index_loop (target_path : string) (st : loop_state) (indices : list Z)
    : io loop_state :=
  match indices with
  | [] => mret st
  | idx :: rest =>
      st' ← index_step target_path st idx;
      index_loop target_path st' rest
  end.

(** What the loop does, index by index, for as long as it runs: the index,
    the directory searched for it, the world before, and the outcome of the
    body of the [try] with the world after. *)
Fixpoint index_trace (target_path : string) (st : loop_state) (indices : list Z)
    (w : world) : list (Z * string * world * (world * result unit)) :=
  match indices with
  | [] => []
  | idx :: rest =>
      let outcome := process_index (next_source_path st idx) target_path w in
      (idx, next_source_path st idx, w, outcome)
      :: match index_step target_path st idx w with
         | (w', Ok st') => index_trace target_path st' rest w'
         | (_, Raise _) => []
         end
  end.

(** [_params[key]] *)
Definition params_get (params : gmap string string) (key : string) : io string :=
  reading (fun _ => match params !! key with
                    | Some v => Ok v
                    | None => Raise KeyError
                    end).

Definition preprocess (from_idx to_idx : Z) (params : gmap string string)
    : io (gset Z * gset Z) :=
  source_path ← params_get params "src_path";
  target_path ← params_get params "tgt_path";
  st ← index_loop target_path
         {| source_path := source_path; succ := ∅; fail := ∅ |}
         (range from_idx to_idx);
  mret (succ st, fail st).

End Driver.

(** ** A small concrete platform

    A file system with three speaker directories under [data], a detector
    that finds a face exactly when the top-left pixel of the frame is
    positive, and a predictor whose mouth contour is centred at (50, 50),
    spans x = 20 .. 80, and is shifted by the value of that pixel minus one.
    The world records the directories made and the images written, latest
    first. *)

Module Demo.

Definition frame (v : Z) : ndarray :=
  {| shape := [120%nat; 160%nat];
     item := fun idx =>
               match idx with
               | [O; O] => v
               | [i; j] => (Z.of_nat i + Z.of_nat j) mod 256
               | _ => 0
               end |}.

Definition marker (f : ndarray) : Z := item f [0%nat; 0%nat].

Definition detector (f : ndarray) : list unit :=
  if 0 <? marker f then [()] else [].

(** 68 landmarks: 48 points outside the mouth, then the 20 mouth points. *)
Definition landmarks (shift : Z) : list (Z * Z) :=
  repeat (0, 0) 48
  ++ map (fun x => (x + shift, 50 + shift)) (20 :: 80 :: repeat 50 18).

Definition predictor (f : ndarray) (_ : unit) : list (Z * Z) :=
  landmarks (marker f - 1).

(** Nearest-neighbour resizing; a size that is not positive is refused. *)
Definition resize (f : ndarray) (size : Z * Z) : result ndarray :=
  let '(h, w) := size in
  match shape f with
  | h0 :: w0 :: rest =>
      if (0 <? h) && (0 <? w)
      then Ok {| shape := Z.to_nat h :: Z.to_nat w :: rest;
                 item := fun idx =>
                           match idx with
                           | i :: j :: idx' =>
                               item f ((i * h0 / Z.to_nat h)%nat
                                         :: (j * w0 / Z.to_nat w)%nat :: idx')
                           | _ => 0
                           end |}
      else Raise ValueError
  | _ => Raise ValueError
  end.

Definition ends_with (suffix s : string) : bool :=
  let n := String.length s in
  let k := String.length suffix in
  (k <=? n)%nat && String.eqb (substring (n - k) k s) suffix.

Definition walk (dir : string) : list (string * list string) :=
  if String.eqb dir "data/s1/" then [("data/s1/", ["a.mpg"; "notes.txt"])]
  else if String.eqb dir "data/s2/" then [("data/s2/", ["b.mpg"])]
  else if String.eqb dir "data/s3/" then [("data/s3/", ["bad.mpg"])]
  else [].

(** [bad.mpg] cannot be read; every other video has three frames without a
    face. *)
Definition read_video (path : string) : result (list ndarray) :=
  if ends_with "bad.mpg" path then Raise (OSError 5)
  else Ok [frame 0; frame 0; frame 0].

#[export] Instance platform : Platform := {|
  world := list string;
  detection := unit;
  os_walk := fun _ dir => walk dir;
  fnmatch := fun basename pattern =>
               String.eqb pattern "*.mpg" && ends_with ".mpg" basename;
  os_makedirs := fun w path => (path :: w, Ok ());
  os_path_isdir := fun w path => bool_decide (path ∈ w);
  vreader := fun _ path => read_video path;
  get_frontal_face_detector := detector;
  shape_predictor := fun _ _ => Ok predictor;
  imresize := resize;
  imsave := fun w path _ => (path :: w, Ok ())
|}.

(** The same platform, but every video decodes to no frame at all. *)
Definition silent_platform : Platform := {|
  world := list string;
  detection := unit;
  os_walk := fun _ dir => walk dir;
  fnmatch := fun basename pattern =>
               String.eqb pattern "*.mpg" && ends_with ".mpg" basename;
  os_makedirs := fun w path => (path :: w, Ok ());
  os_path_isdir := fun w path => bool_decide (path ∈ w);
  vreader := fun _ _ => Ok [];
  get_frontal_face_detector := detector;
  shape_predictor := fun _ _ => Ok predictor;
  imresize := resize;
  imsave := fun w path _ => (path :: w, Ok ())
|}.

(** A file system where speaker 1 has a subdirectory [s2] of its own and
    there is no [data/s2]: [data/s1/a.mpg] and [data/s1/s2/bad.mpg] are the
    only files.  [os.walk] of [data/s1/] also visits the subdirectory. *)
Definition nested_walk (dir : string) : list (string * list string) :=
  if String.eqb dir "data/s1/"
  then [("data/s1/", ["a.mpg"]); ("data/s1/s2", ["bad.mpg"])]
  else if String.eqb dir "data/s1//s2/" then [("data/s1//s2/", ["bad.mpg"])]
  else [].

Definition nested_platform : Platform := {|
  world := list string;
  detection := unit;
  os_walk := fun _ dir => nested_walk dir;
  fnmatch := fun basename pattern =>
               String.eqb pattern "*.mpg" && ends_with ".mpg" basename;
  os_makedirs := fun w path => (path :: w, Ok ());
  os_path_isdir := fun w path => bool_decide (path ∈ w);
  vreader := fun _ path => read_video path;
  get_frontal_face_detector := detector;
  shape_predictor := fun _ _ => Ok predictor;
  imresize := resize;
  imsave := fun w path _ => (path :: w, Ok ())
|}.

Definition params : gmap string string :=
  {[ "src_path" := "data"; "tgt_path" := "out" ]}.

(** A clip whose three frames all show a face, at different places. *)
Definition moving_clip : list ndarray := [frame 1; frame 3; frame 2].

(** A clip where only the first frame shows a face. *)
Definition first_only_clip : list ndarray := [frame 1; frame 0; frame 0].

(** A clip whose first frame has all its mouth points at x = 0. *)
Definition flat_predictor (f : ndarray) (_ : unit) : list (Z * Z) :=
  repeat (0, 50) 68.
Definition flat_clip : list ndarray := [frame 1; frame 0].

End Demo.

(** * Properties *)

(** ** The result monad *)

Lemma bind_Ok {A B} (a : A) (k : A -> result B) : (Ok a ≫= k) = k a.
Proof. reflexivity. Qed.

Lemma bind_Raise {A B} (e : exn) (k : A -> result B) : (Raise e ≫= k) = Raise e.
Proof. reflexivity. Qed.

Lemma bind_Ok_inv {A B} (m : result A) (k : A -> result B) (b : B) :
  (m ≫= k) = Ok b -> exists a, m = Ok a /\ k a = Ok b.
Proof. destruct m as [a|e]; [eauto | discriminate]. Qed.

Lemma mapM_Ok_Forall2 {A B} (f : A -> result B) (l : list A) (k : list B) :
  mapM f l = Ok k <-> Forall2 (fun a b => f a = Ok b) l k.
Proof.
  revert k. induction l as [|a l IH]; intros k; cbn.
  - split.
    + intros [= <-]. constructor.
    + intros Hk. inversion Hk. reflexivity.
  - split.
    + intros Hm. apply bind_Ok_inv in Hm as (b & Hb & Hm).
      apply bind_Ok_inv in Hm as (k' & Hk' & [= <-]).
      constructor; [exact Hb | now apply IH].
    + intros Hk. inversion Hk as [|? b ? k' Hb Hk']; subst.
      rewrite Hb. cbn. apply IH in Hk'. rewrite Hk'. reflexivity.
Qed.

Lemma mapM_Raise_first {A B} (f : A -> result B) (l : list A) (e : exn) :
  mapM f l = Raise e <->
  exists pre a post, l = pre ++ a :: post /\ f a = Raise e
                     /\ Forall (fun x => exists b, f x = Ok b) pre.
Proof.
  induction l as [|a l IH]; cbn.
  - split; [discriminate|]. intros (pre & a & post & Hl & _). now destruct pre.
  - destruct (f a) as [b|e'] eqn:Hfa; cbn.
    + split.
      * intros Hm. destruct (mapM f l) as [k|e'] eqn:Hl; [discriminate|].
        cbn in Hm. injection Hm as ->.
        destruct (proj1 IH eq_refl) as (pre & x & post & -> & Hx & Hpre).
        exists (a :: pre), x, post. repeat split; [exact Hx|].
        constructor; [eauto | exact Hpre].
      * intros (pre & x & post & Hl & Hx & Hpre).
        destruct pre as [|p pre]; cbn in Hl; injection Hl as -> ->.
        -- congruence.
        -- inversion Hpre; subst.
           rewrite (proj2 IH); [reflexivity|]. eauto 6.
    + split.
      * intros [= ->]. exists [], a, l. repeat split; [exact Hfa | constructor].
      * intros (pre & x & post & Hl & Hx & Hpre).
        destruct pre as [|p pre]; cbn in Hl; injection Hl as -> ->.
        -- congruence.
        -- inversion Hpre as [|? ? [b Hb] ?]; subst. congruence.
Qed.

(** ** Mouth cropping *)

Section CropProperties.

Context {Det : Type}.
Variable detector : ndarray -> list Det.
Variable predictor : ndarray -> Det -> list (Z * Z).
Variable imresize : ndarray -> Z * Z -> result ndarray.

Local Abbreviation detect_shape := (Video.detect_shape detector predictor).
Local Abbreviation crop_frame := (Video.crop_frame imresize).
Local Abbreviation frame_step := (Video.frame_step detector predictor imresize).
Local Abbreviation frames_loop := (Video.frames_loop detector predictor imresize).
Local Abbreviation get_frames_mouth := (Video.get_frames_mouth detector predictor imresize).
Local Abbreviation cropped_with := (Video.cropped_with detector predictor imresize).

Lemma frames_loop_app st a b :
  frames_loop st (a ++ b) =
  frames_loop st a ≫= fun r =>
    match r with
    | None => Ok None
    | Some st' => frames_loop st' b
    end.
Proof.
  revert st. induction a as [|f a IH]; intros st; cbn; [reflexivity|].
  destruct (frame_step st f) as [[st'|]|e]; cbn; [apply IH | reflexivity ..].
Qed.

Lemma frame_step_undetected st f :
  detect_shape f = None -> frame_step st f = Ok None.
Proof. intros Hf. unfold Video.frame_step. now rewrite Hf. Qed.

Lemma frames_loop_undetected st f post :
  detect_shape f = None -> frames_loop st (f :: post) = Ok None.
Proof. intros Hf. cbn. now rewrite frame_step_undetected. Qed.

Lemma frames_loop_all_undetected st l :
  Forall (fun g => detect_shape g = None) l ->
  frames_loop st l = Ok (match l with [] => Some st | _ => None end).
Proof.
  intros Hl. destruct Hl as [|g l Hg _]; [reflexivity|].
  now apply frames_loop_undetected.
Qed.

(** What one successful iteration does to the state. *)
Lemma frame_step_Some st f st' :
  frame_step st f = Ok (Some st') ->
  exists parts r img,
    detect_shape f = Some parts
    /\ match Video.normalize_ratio st with
       | None => Video.compute_ratio (Video.mouth_points parts) = Ok r
       | Some r0 => r = r0
       end
    /\ cropped_with r f img
    /\ Video.normalize_ratio st' = Some r
    /\ Video.mouth_frames st' = Video.mouth_frames st ++ [img].
Proof.
  unfold Video.frame_step, Video.cropped_with.
  destruct (detect_shape f) as [parts|]; [|discriminate].
  intros Hstep.
  apply bind_Ok_inv in Hstep as (c & Hc & Hstep).
  apply bind_Ok_inv in Hstep as (r & Hr & Hstep).
  apply bind_Ok_inv in Hstep as (img & Himg & [= <-]).
  exists parts, r, img. cbn. repeat split.
  - destruct (Video.normalize_ratio st); congruence.
  - eauto.
Qed.

(** Once the ratio is set, the loop never changes it and uses it for every
    crop it appends. *)
Lemma frames_loop_keeps_ratio frames : forall st st' r,
  Video.normalize_ratio st = Some r ->
  frames_loop st frames = Ok (Some st') ->
  Video.normalize_ratio st' = Some r
  /\ exists imgs, Video.mouth_frames st' = Video.mouth_frames st ++ imgs
                  /\ Forall2 (cropped_with r) frames imgs.
Proof.
  induction frames as [|f frames IH]; intros st st' r Hr Hloop; cbn in Hloop.
  - injection Hloop as <-. split; [exact Hr|].
    exists []. split; [now rewrite app_nil_r | constructor].
  - apply bind_Ok_inv in Hloop as ([st1|] & Hstep & Hloop); [|discriminate].
    apply frame_step_Some in Hstep as (parts & r1 & img & _ & Hr1 & Hcrop & Hst1 & Hframes).
    rewrite Hr in Hr1. subst r1.
    destruct (IH _ _ _ Hst1 Hloop) as (Hst' & imgs & Himgs & Hall).
    split; [exact Hst'|].
    exists (img :: imgs). split.
    + rewrite Himgs, Hframes, <- app_assoc. reflexivity.
    + constructor; assumption.
Qed.

(** C2: when the loop has gone through a clip [frame :: rest] (any clip, so
    also any prefix of a longer one), the ratio in its state is the one
    computed from the landmarks of the first frame, and every crop made so
    far, the first one and all the later ones, was resized with that same
    ratio around the centroid of its own frame. *)
Theorem normalize_ratio_fixed_by_first_frame frame rest st :
  frames_loop Video.initial_state (frame :: rest) = Ok (Some st) ->
  exists parts r,
    detect_shape frame = Some parts
    /\ Video.compute_ratio (Video.mouth_points parts) = Ok r
    /\ Video.normalize_ratio st = Some r
    /\ Forall2 (cropped_with r) (frame :: rest) (Video.mouth_frames st)
    /\ get_frames_mouth (frame :: rest) = Ok (Video.mouth_frames st).
Proof.
  intros Hloop.
  assert (Hget : get_frames_mouth (frame :: rest) = Ok (Video.mouth_frames st)).
  { unfold Video.get_frames_mouth. now rewrite Hloop. }
  cbn in Hloop.
  apply bind_Ok_inv in Hloop as ([st1|] & Hstep & Hloop); [|discriminate].
  apply frame_step_Some in Hstep as (parts & r & img & Hdet & Hr & Hcrop & Hst1 & Hframes).
  cbn in Hr, Hframes.
  destruct (frames_loop_keeps_ratio _ _ _ _ Hst1 Hloop) as (Hst & imgs & Himgs & Hall).
  exists parts, r. repeat split; try assumption.
  rewrite Himgs, Hframes. cbn. constructor; assumption.
Qed.

(** The early return: an undetected frame ends the loop with the input, when
    the loop gets to it. *)
Lemma get_frames_mouth_returns_input pre f post :
  detect_shape f = None ->
  (forall e, frames_loop Video.initial_state pre <> Raise e) ->
  get_frames_mouth (pre ++ f :: post) = Ok (pre ++ f :: post).
Proof.
  intros Hf Hpre. unfold Video.get_frames_mouth. rewrite frames_loop_app.
  destruct (frames_loop Video.initial_state pre) as [[st|]|e]; cbn.
  - now rewrite frame_step_undetected.
  - reflexivity.
  - now destruct (Hpre e).
Qed.

(** C1 (as amended): a frame without a detection makes the call return its
    input, whatever follows that frame, provided no exception was raised
    while cropping the frames before it.  That proviso holds when the
    frames before it have no detection either, and when there is none (the
    undetected frame is the first); an empty clip is returned as it is.  An
    exception raised before the undetected frame is what the call raises. *)
Theorem get_frames_mouth_undetected_frame pre f post :
  detect_shape f = None ->
  ((forall e, frames_loop Video.initial_state pre <> Raise e) ->
   get_frames_mouth (pre ++ f :: post) = Ok (pre ++ f :: post))
  /\ (Forall (fun g => detect_shape g = None) pre ->
      get_frames_mouth (pre ++ f :: post) = Ok (pre ++ f :: post))
  /\ get_frames_mouth (f :: post) = Ok (f :: post)
  /\ get_frames_mouth [] = Ok []
  /\ (forall e, frames_loop Video.initial_state pre = Raise e ->
                get_frames_mouth (pre ++ f :: post) = Raise e).
Proof.
  intros Hf.
  pose proof (get_frames_mouth_returns_input pre f post Hf) as Hreturns.
  split; [exact Hreturns|]. split; [|split; [|split]].
  - intros Hpre. apply Hreturns. intros e.
    now rewrite frames_loop_all_undetected.
  - unfold Video.get_frames_mouth. now rewrite frames_loop_undetected.
  - reflexivity.
  - intros e He. unfold Video.get_frames_mouth.
    rewrite frames_loop_app, He. reflexivity.
Qed.

End CropProperties.

(** ** The ratio of a clip whose first frame alone shows a face *)

Lemma fold_left_min_le xs : forall x,
  fold_left Z.min xs x <= x /\ Forall (fun v => fold_left Z.min xs x <= v) xs.
Proof.
  induction xs as [|y xs IH]; intros x; cbn; [split; [lia | constructor]|].
  destruct (IH (Z.min x y)) as [Hle Hall]. split; [lia|].
  constructor; [lia | exact Hall].
Qed.

Lemma fold_left_max_ge xs : forall x,
  x <= fold_left Z.max xs x /\ Forall (fun v => v <= fold_left Z.max xs x) xs.
Proof.
  induction xs as [|y xs IH]; intros x; cbn; [split; [lia | constructor]|].
  destruct (IH (Z.max x y)) as [Hle Hall]. split; [lia|].
  constructor; [lia | exact Hall].
Qed.

Lemma fold_left_min_elem xs : forall x, fold_left Z.min xs x ∈ x :: xs.
Proof.
  induction xs as [|y xs IH]; intros x; cbn; [apply list_elem_of_here|].
  specialize (IH (Z.min x y)).
  apply elem_of_cons in IH as [->|Hin].
  - destruct (Z.min_spec x y) as [[_ ->]|[_ ->]];
      [| apply list_elem_of_further]; apply list_elem_of_here.
  - now do 2 apply list_elem_of_further.
Qed.

Lemma fold_left_max_elem xs : forall x, fold_left Z.max xs x ∈ x :: xs.
Proof.
  induction xs as [|y xs IH]; intros x; cbn; [apply list_elem_of_here|].
  specialize (IH (Z.max x y)).
  apply elem_of_cons in IH as [->|Hin].
  - destruct (Z.max_spec x y) as [[_ ->]|[_ ->]];
      [apply list_elem_of_further|]; apply list_elem_of_here.
  - now do 2 apply list_elem_of_further.
Qed.

Lemma np_min_least x xs m :
  m ∈ x :: xs -> (forall v, v ∈ x :: xs -> m <= v) -> Np.min x xs = m.
Proof.
  intros Hm Hle. unfold Np.min.
  pose proof (fold_left_min_elem xs x) as Hin.
  destruct (fold_left_min_le xs x) as [Hx Hxs].
  apply Z.le_antisymm; [|now apply Hle].
  apply elem_of_cons in Hm as [->|Hm]; [exact Hx|].
  rewrite Forall_forall in Hxs. now apply Hxs.
Qed.

Lemma np_max_greatest x xs m :
  m ∈ x :: xs -> (forall v, v ∈ x :: xs -> v <= m) -> Np.max x xs = m.
Proof.
  intros Hm Hle. unfold Np.max.
  pose proof (fold_left_max_elem xs x) as Hin.
  destruct (fold_left_max_ge xs x) as [Hx Hxs].
  apply Z.le_antisymm; [now apply Hle|].
  apply elem_of_cons in Hm as [->|Hm]; [exact Hx|].
  rewrite Forall_forall in Hxs. now apply Hxs.
Qed.

Section FirstFrameOnly.

Context {Det : Type}.
Variable detector : ndarray -> list Det.
Variable predictor : ndarray -> Det -> list (Z * Z).
Variable imresize : ndarray -> Z * Z -> result ndarray.

Local Abbreviation detect_shape := (Video.detect_shape detector predictor).
Local Abbreviation frame_step := (Video.frame_step detector predictor imresize).
Local Abbreviation get_frames_mouth := (Video.get_frames_mouth detector predictor imresize).

(** C3 (as amended): in a clip of three frames where the first frame has
    mouth points spanning x = 20 .. 80 and the second has no detection, the
    ratio computed from the first frame is 100 / (80 * 1.19 - 20 * 0.81),
    that is 100 / 79 up to rounding, and, when cropping the first frame
    raises nothing, the call returns the three input frames as they are. *)
Theorem first_frame_only_ratio_and_frames f0 f1 f2 parts x xs :
  detect_shape f0 = Some parts ->
  detect_shape f1 = None ->
  map fst (Video.mouth_points parts) = x :: xs ->
  20 ∈ x :: xs -> 80 ∈ x :: xs -> (forall v, v ∈ x :: xs -> 20 <= v <= 80) ->
  Video.compute_ratio (Video.mouth_points parts)
  = Ok (100 / (80 * (1 + 0.19) - 20 * (1 - 0.19)))%float
  /\ ((forall e, frame_step Video.initial_state f0 <> Raise e) ->
      get_frames_mouth [f0; f1; f2] = Ok [f0; f1; f2]).
Proof.
  intros Hf0 Hf1 Hxs H20 H80 Hrange. split.
  - unfold Video.compute_ratio. rewrite Hxs.
    rewrite (np_min_least x xs 20), (np_max_greatest x xs 80);
      [| assumption | intros v Hv; apply Hrange, Hv
       | assumption | intros v Hv; apply Hrange, Hv ].
    vm_compute. reflexivity.
  - intros Hstep.
    apply (get_frames_mouth_returns_input detector predictor imresize [f0] f1 [f2] Hf1).
    intros e. cbn.
    destruct (frame_step Video.initial_state f0) as [[st|]|e0] eqn:Hs; cbn;
      [discriminate | discriminate | now destruct (Hstep e0)].
Qed.

End FirstFrameOnly.

(** ** The cropping properties on the concrete platform *)

Lemma float_neq (a b : float) : Prim2SF a <> Prim2SF b -> a <> b.
Proof. intros Hab ->. now apply Hab. Qed.

(** C2, on a clip whose three frames show the face at different places. *)
Lemma normalize_ratio_fixed_on_moving_clip :
  exists st parts r,
    Video.frames_loop Demo.detector Demo.predictor Demo.resize
      Video.initial_state Demo.moving_clip = Ok (Some st)
    /\ Video.detect_shape Demo.detector Demo.predictor (Demo.frame 1) = Some parts
    /\ Video.compute_ratio (Video.mouth_points parts) = Ok r
    /\ Video.normalize_ratio st = Some r
    /\ Forall2 (Video.cropped_with Demo.detector Demo.predictor Demo.resize r)
         Demo.moving_clip (Video.mouth_frames st)
    /\ Video.get_frames_mouth Demo.detector Demo.predictor Demo.resize Demo.moving_clip
       = Ok (Video.mouth_frames st).
Proof.
  assert (Hrun : exists st,
             Video.frames_loop Demo.detector Demo.predictor Demo.resize
               Video.initial_state Demo.moving_clip = Ok (Some st)).
  { vm_compute. eexists. reflexivity. }
  destruct Hrun as [st Hrun]. exists st.
  destruct (normalize_ratio_fixed_by_first_frame
              Demo.detector Demo.predictor Demo.resize
              (Demo.frame 1) [Demo.frame 3; Demo.frame 2] st Hrun)
    as (parts & r & Hrest).
  exists parts, r. split; [exact Hrun | exact Hrest].
Defined.

(** The ratio of the moving clip is the one of its first frame, although its
    second frame alone would give another one. *)
Example moving_clip_ratio :
  Video.compute_ratio (Video.mouth_points (Demo.landmarks 0))
  <> Video.compute_ratio (Video.mouth_points (Demo.landmarks 2)).
Proof.
  intros Heq.
  assert (Hr : forall a b : float, Ok a = Ok b -> a = b) by (intros a b [= ->]; reflexivity).
  vm_compute in Heq. apply Hr in Heq. revert Heq.
  apply float_neq. vm_compute. discriminate.
Qed.

(** C1, on a clip whose second frame shows no face. *)
Lemma get_frames_mouth_undetected_second_frame :
  let get := Video.get_frames_mouth Demo.detector Demo.predictor Demo.resize in
  let loop := Video.frames_loop Demo.detector Demo.predictor Demo.resize in
  ((forall e, loop Video.initial_state [Demo.frame 1] <> Raise e) ->
   get Demo.first_only_clip = Ok Demo.first_only_clip)
  /\ (Forall (fun g => Video.detect_shape Demo.detector Demo.predictor g = None)
        [Demo.frame 1] ->
      get Demo.first_only_clip = Ok Demo.first_only_clip)
  /\ get [Demo.frame 0; Demo.frame 0] = Ok [Demo.frame 0; Demo.frame 0]
  /\ get [] = Ok []
  /\ (forall e, loop Video.initial_state [Demo.frame 1] = Raise e ->
                get Demo.first_only_clip = Raise e).
Proof.
  apply (get_frames_mouth_undetected_frame Demo.detector Demo.predictor Demo.resize
           [Demo.frame 1] (Demo.frame 0) [Demo.frame 0]).
  reflexivity.
Defined.

(** C1 as first stated fails: the second frame of this clip has no
    detection, yet the call does not return the clip, because the mouth
    points of the first frame all have x = 0 and the division that computes
    the ratio raises [ZeroDivisionError]. *)
Lemma get_frames_mouth_raises_before_undetected_frame :
  (exists f, f ∈ Demo.flat_clip
             /\ Video.detect_shape Demo.detector Demo.flat_predictor f = None)
  /\ Video.get_frames_mouth Demo.detector Demo.flat_predictor Demo.resize Demo.flat_clip
     = Raise ZeroDivisionError
  /\ Video.get_frames_mouth Demo.detector Demo.flat_predictor Demo.resize Demo.flat_clip
     <> Ok Demo.flat_clip.
Proof.
  split; [|split].
  - exists (Demo.frame 0). split; [|reflexivity].
    apply list_elem_of_further, list_elem_of_here.
  - vm_compute. reflexivity.
  - vm_compute. discriminate.
Qed.

(** C3, on the clip whose first frame alone shows a face. *)
Lemma first_frame_only_on_demo_clip :
  Video.compute_ratio (Video.mouth_points (Demo.landmarks 0))
  = Ok (100 / (80 * (1 + 0.19) - 20 * (1 - 0.19)))%float
  /\ Video.get_frames_mouth Demo.detector Demo.predictor Demo.resize Demo.first_only_clip
     = Ok Demo.first_only_clip.
Proof.
  destruct (first_frame_only_ratio_and_frames Demo.detector Demo.predictor Demo.resize
              (Demo.frame 1) (Demo.frame 0) (Demo.frame 0)
              (Demo.landmarks 0) 20 (80 :: repeat 50 18))
    as [Hratio Hframes].
  - reflexivity.
  - reflexivity.
  - reflexivity.
  - apply list_elem_of_here.
  - apply list_elem_of_further, list_elem_of_here.
  - intros v Hv. apply list_elem_of_In in Hv. cbn in Hv.
    repeat (destruct Hv as [<-|Hv]; [lia|]). destruct Hv.
  - split; [exact Hratio|]. apply Hframes.
    intros e He. vm_compute in He. discriminate.
Defined.

(** C3 as first stated fails on that clip: its first frame has mouth points
    with centroid (50, 50) spanning x = 20 .. 80 and its other frames show
    no face, but the ratio is not 100 / (60 * 1.19 * 2), and the three frames
    returned are the 120 x 160 input frames, not 50 x 100 crops. *)
Lemma first_frame_only_not_cropped :
  let detect := Video.detect_shape Demo.detector Demo.predictor in
  let points := Video.mouth_points (Demo.landmarks 0) in
  (detect (Demo.frame 1) = Some (Demo.landmarks 0)
   /\ detect (Demo.frame 0) = None
   /\ Demo.first_only_clip = [Demo.frame 1; Demo.frame 0; Demo.frame 0]
   /\ Video.mouth_centroid points = Ok (50, 50)%float
   /\ Np.min 20 (80 :: repeat 50 18) = 20
   /\ Np.max 20 (80 :: repeat 50 18) = 80
   /\ map fst points = 20 :: 80 :: repeat 50 18)
  /\ Video.compute_ratio points <> Ok (100 / (60 * 1.19 * 2))%float
  /\ ~ exists out,
         Video.get_frames_mouth Demo.detector Demo.predictor Demo.resize
           Demo.first_only_clip = Ok out
         /\ Forall (fun f => shape f = [50%nat; 100%nat]) out.
Proof.
  split; [|split].
  - do 6 (split; [vm_compute; reflexivity|]). vm_compute. reflexivity.
  - intros Heq.
    assert (Hr : forall a b : float, Ok a = Ok b -> a = b) by (intros a b [= ->]; reflexivity).
    vm_compute in Heq. apply Hr in Heq. revert Heq.
    apply float_neq. vm_compute. discriminate.
  - intros Hex. destruct Hex as (out & Hout & Hshape).
    pose proof (get_frames_mouth_returns_input Demo.detector Demo.predictor Demo.resize
                  [Demo.frame 1] (Demo.frame 0) [Demo.frame 0] eq_refl) as Hget.
    change ([Demo.frame 1] ++ Demo.frame 0 :: [Demo.frame 0])
      with Demo.first_only_clip in Hget.
    rewrite Hget in Hout; clear Hget.
    + injection Hout as <-. apply Forall_inv in Hshape. discriminate Hshape.
    + intros e He. vm_compute in He. discriminate He.
Qed.

(** ** Tensor packing *)

Lemma mapM_Forall_Ok {A B} (f : A -> result B) (Q : A -> B -> Prop) (l : list A) :
  Forall (fun a => exists b, f a = Ok b /\ Q a b) l ->
  exists k, mapM f l = Ok k /\ Forall2 Q l k.
Proof.
  induction 1 as [|a l (b & Hb & HQ) _ (k & Hk & Hall)]; cbn.
  - exists []. split; [reflexivity | constructor].
  - exists (b :: k). rewrite Hb. cbn. rewrite Hk. cbn.
    split; [reflexivity | now constructor].
Qed.

Lemma array_stack (k : list ndarray) (s : list nat) :
  k <> [] ->
  Forall (fun g => shape g = s) k ->
  Np.array k
  = Ok {| shape := List.length k :: s;
          item := fun idx =>
                    match idx with
                    | t :: idx' => item (nth t k Np.empty_array) idx'
                    | [] => 0
                    end |}.
Proof.
  intros Hne Hall. destruct k as [|a rest]; [congruence|].
  unfold Np.array. inversion Hall as [|? ? Ha Hrest]; subst.
  replace (forallb (fun b => bool_decide (shape b = shape a)) rest) with true;
    [reflexivity|].
  symmetry. apply forallb_forall. intros b Hb.
  apply bool_decide_eq_true. rewrite Forall_forall in Hrest.
  apply Hrest. now apply list_elem_of_In.
Qed.

Lemma pack_frame_2d f H W :
  shape f = [H; W] ->
  exists g, Video.pack_frame f = Ok g
            /\ (shape g = [W; H; 1%nat]
                /\ forall h w, item g [w; h; 0%nat] = item f [h; w]).
Proof.
  intros Hs. unfold Video.pack_frame, Np.swapaxes, ndim. rewrite Hs. cbn.
  eexists. split; [reflexivity|]. split; [reflexivity|]. intros h w. reflexivity.
Qed.

Lemma pack_frame_3d f H W C :
  shape f = [H; W; C] ->
  exists g, Video.pack_frame f = Ok g
            /\ (shape g = [W; H; C]
                /\ forall h w c, item g [w; h; c] = item f [h; w; c]).
Proof.
  intros Hs. unfold Video.pack_frame, Np.swapaxes, ndim. rewrite Hs. cbn.
  eexists. split; [reflexivity|]. split; [reflexivity|]. intros h w c. reflexivity.
Qed.

(** The three array steps that follow the loop of [set_data]. *)
Lemma stack_roll_swap (k : list ndarray) (W H C : nat) :
  k <> [] ->
  Forall (fun g => shape g = [W; H; C]) k ->
  exists arr,
    (Np.array k ≫= fun a => Np.rollaxis a 3 ≫= Np.swapaxes 2 3) = Ok arr
    /\ shape arr = [C; List.length k; H; W]
    /\ forall c t h w, item arr [c; t; h; w] = item (nth t k Np.empty_array) [w; h; c].
Proof.
  intros Hne Hall. rewrite (array_stack k [W; H; C] Hne Hall). cbn.
  eexists. split; [reflexivity|]. split; [reflexivity|]. reflexivity.
Qed.

(** C5: on a non-empty sequence of N frames of one shape, H x W or
    H x W x C, [set_data] succeeds; the array it stores has shape
    (C or 1, N, H, W), its entry at (c, t, h, w) is the entry of frame t at
    (h, w, c), or at (h, w) for frames without a channel axis, so that every
    entry of every frame is kept; the length it stores is N, and the other
    attributes are left as they were. *)
Theorem set_data_packs self frames (H W : nat) (channels : option nat) :
  frames <> [] ->
  Forall (fun f => shape f = H :: W :: option_list channels) frames ->
  exists arr,
    Video.set_data self frames
    = Ok {| Video.face_predictor_path := Video.face_predictor_path self;
            Video.vtype := Video.vtype self;
            Video.face := Video.face self;
            Video.mouth := Video.mouth self;
            Video.data := Some arr;
            Video.length := Some (List.length frames) |}
    /\ shape arr = [default 1%nat channels; List.length frames; H; W]
    /\ forall c t h w frame,
         frames !! t = Some frame ->
         (c < default 1 channels)%nat ->
         item arr [c; t; h; w]
         = item frame (h :: w :: match channels with Some _ => [c] | None => [] end).
Proof.
  intros Hne Hshape.
  set (C := default 1%nat channels).
  set (Q := fun (f g : ndarray) =>
              shape g = [W; H; C]
              /\ forall h w c, (c < C)%nat ->
                   item g [w; h; c]
                   = item f (h :: w :: match channels with Some _ => [c] | None => [] end)).
  destruct (mapM_Forall_Ok Video.pack_frame Q frames) as (k & Hk & Hpacked).
  { eapply Forall_impl; [exact Hshape|]. intros f Hf. subst Q C.
    destruct channels as [C|]; cbn in Hf |- *.
    - destruct (pack_frame_3d f H W C Hf) as (g & Hg & Hsg & Hig).
      exists g. repeat split; auto.
    - destruct (pack_frame_2d f H W Hf) as (g & Hg & Hsg & Hig).
      exists g. repeat split; auto.
      intros h w c Hc. replace c with 0%nat by lia. apply Hig. }
  pose proof (Forall2_length _ _ _ Hpacked) as Hlen.
  destruct (stack_roll_swap k W H C) as (arr & Harr & Hsarr & Hiarr).
  { intros ->. destruct frames; [congruence | discriminate]. }
  { eapply Forall2_Forall_r; [exact Hpacked|].
    apply Forall_forall. intros f _ g [Hg _]. exact Hg. }
  exists arr. split; [|split].
  - unfold Video.set_data. rewrite Hk. cbn.
    change (Np.array k ≫= fun a => Np.rollaxis a 3 ≫= Np.swapaxes 2 3)
      with (Np.array k ≫= fun a => Np.rollaxis a 3 ≫= fun b => Np.swapaxes 2 3 b) in Harr.
    destruct (Np.array k) as [a|e]; cbn in Harr |- *; [|discriminate].
    destruct (Np.rollaxis a 3) as [b|e]; cbn in Harr |- *; [|discriminate].
    rewrite Harr. cbn. now rewrite Hlen.
  - now rewrite Hsarr, Hlen.
  - intros c t h w frame Ht Hc. rewrite Hiarr.
    destruct (Forall2_lookup_l _ _ _ _ _ Hpacked Ht) as (g & Hg & _ & Hig).
    rewrite (nth_lookup_Some _ _ _ _ Hg). now apply Hig.
Qed.

(** C5, on the three grey frames of the moving clip. *)
Lemma set_data_packs_moving_clip :
  exists arr,
    Video.set_data
      {| Video.face_predictor_path := None; Video.vtype := "mouth";
         Video.face := None; Video.mouth := None;
         Video.data := None; Video.length := None |} Demo.moving_clip
    = Ok {| Video.face_predictor_path := None; Video.vtype := "mouth";
            Video.face := None; Video.mouth := None;
            Video.data := Some arr; Video.length := Some 3%nat |}
    /\ shape arr = [1%nat; 3%nat; 120%nat; 160%nat]
    /\ forall c t h w frame,
         Demo.moving_clip !! t = Some frame ->
         (c < 1)%nat ->
         item arr [c; t; h; w] = item frame [h; w].
Proof.
  apply (set_data_packs
           {| Video.face_predictor_path := None; Video.vtype := "mouth";
              Video.face := None; Video.mouth := None;
              Video.data := None; Video.length := None |}
           Demo.moving_clip 120 160 None).
  - discriminate.
  - repeat constructor.
Defined.

(** One colour frame of height 2 and width 3 is packed into shape
    (3, 1, 2, 3). *)
Example set_data_colour_frame :
  let frame := {| shape := [2; 3; 3]%nat;
                  item := fun idx => match idx with
                                     | [h; w; c] => Z.of_nat (100 * h + 10 * w + c)
                                     | _ => 0
                                     end |} in
  match Video.set_data
          {| Video.face_predictor_path := None; Video.vtype := "mouth";
             Video.face := None; Video.mouth := None;
             Video.data := None; Video.length := None |} [frame] with
  | Ok v =>
      (shape <$> Video.data v, Video.length v,
       (fun a => item a [2; 0; 1; 2]%nat) <$> Video.data v)
      = (Some [3; 1; 2; 3]%nat, Some 1%nat, Some 122)
  | Raise _ => False
  end.
Proof. vm_compute. reflexivity. Qed.

(** ** Alignments *)

Lemma filter_bool_Prop {A} (f : A -> bool) (P : A -> Prop) `{!forall x, Decision (P x)}
    (l : list A) :
  (forall x, f x = true <-> P x) -> List.filter f l = filter P l.
Proof.
  intros Hf. induction l as [|x l IH]; [reflexivity|]. cbn [List.filter].
  destruct (f x) eqn:Hx.
  - rewrite filter_cons_True by now apply Hf. now rewrite IH.
  - rewrite filter_cons_False; [exact IH|].
    intros HP. apply Hf in HP. congruence.
Qed.

Lemma member_fillers (r : Align.record) :
  negb (Align.member (Align.token r) ["sp"; "sil"]) = true <-> ~ Align.is_filler r.
Proof.
  unfold Align.member, Align.is_filler. cbn.
  destruct (String.eqb_spec (Align.token r) "sp") as [->|Hsp]; cbn.
  - split; [discriminate | intros H; destruct H; now left].
  - destruct (String.eqb_spec (Align.token r) "sil") as [->|Hsil]; cbn.
    + split; [discriminate | intros H; destruct H; now right].
    + split; [intros _ [?|?]; congruence | reflexivity].
Qed.

Lemma strip_fillers (records : list Align.record) :
  Align.strip records ["sp"; "sil"] = filter (fun r => ~ Align.is_filler r) records.
Proof. apply filter_bool_Prop, member_fillers. Qed.

Lemma build_align_sentence self records :
  Align.align (fst (Align.build self records))
  = Some (Align.strip records ["sp"; "sil"])
  /\ Align.sentence (fst (Align.build self records))
     = Some (Align.get_sentence records).
Proof.
  unfold Align.build.
  destruct (Align.get_label _ _) as [lbl|e]; cbn; [|split; reflexivity].
  destruct (Align.get_padded_label _ _) as [padded|e]; cbn; split; reflexivity.
Qed.

(** C6: whatever the label function does, [build] leaves in [self.align]
    the records that are not fillers, in their order, and in [self.sentence]
    the tokens of these records joined by single spaces; on the three lines
    of the example the sentence is "hello" and only the "hello" record is
    kept. *)
Theorem build_strips_fillers :
  (forall self records,
     let kept := filter (fun r => ~ Align.is_filler r) records in
     Align.align (fst (Align.build self records)) = Some kept
     /\ Align.sentence (fst (Align.build self records))
        = Some (join " " (Align.token <$> kept)))
  /\ (forall self,
        let self' := fst (Align.from_file self
                            ["0 1000 sp"; "1000 2000 hello"; "2000 2500 sil"]) in
        Align.align self' = Some [(1%float, 2%float, "hello")]
        /\ Align.sentence self' = Some "hello").
Proof.
  split.
  - intros self records kept. subst kept.
    destruct (build_align_sentence self records) as [Ha Hs].
    rewrite Ha, Hs. unfold Align.get_sentence.
    fold (Align.strip records ["sp"; "sil"]).
    now rewrite strip_fillers.
  - intros self self'. subst self'. unfold Align.from_file.
    replace (Align.parse_lines ["0 1000 sp"; "1000 2000 hello"; "2000 2500 sil"])
      with (Ok [(0%float, 1%float, "sp"); (1%float, 2%float, "hello");
                (2%float, 2.5%float, "sil")] : result (list Align.record))
      by (vm_compute; reflexivity).
    destruct (build_align_sentence self
                [(0%float, 1%float, "sp"); (1%float, 2%float, "hello");
                 (2%float, 2.5%float, "sil")]) as [Ha Hs].
    rewrite Ha, Hs. split; reflexivity.
Qed.

Lemma padding_is_minus_one (n : nat) :
  map (fun one => (one * float_of_Z (-1))%float) (repeat 1%float n)
  = repeat (-1)%float n.
Proof. induction n as [|n IH]; cbn; [reflexivity | now rewrite IH]. Qed.

(** C7: a label no longer than [absolute_max_string_len] is padded to exactly
    that length, the label first and then the sentinel -1; a longer label
    makes [get_padded_label] raise [ValueError], which [build] lets through:
    nothing is truncated. *)
Theorem get_padded_label_pads_or_raises self (label : list Z) :
  let n := Z.of_nat (List.length label) in
  let m := Align.absolute_max_string_len self in
  (n <= m ->
   exists padded,
     Align.get_padded_label self label = Ok padded
     /\ Z.of_nat (List.length padded) = m
     /\ take (List.length label) padded = float_of_Z <$> label
     /\ drop (List.length label) padded = repeat (-1)%float (Z.to_nat (m - n)))
  /\ (m < n ->
      Align.get_padded_label self label = Raise ValueError
      /\ forall records,
           Align.get_label self (Align.get_sentence records) = Ok label ->
           snd (Align.build self records) = Raise ValueError).
Proof.
  intros n m. subst n m. unfold Align.get_padded_label, Np.ones. split.
  - intros Hle.
    destruct (Z.ltb_spec (Align.absolute_max_string_len self
                          - Z.of_nat (List.length label)) 0) as [Hlt|_]; [lia|].
    cbn. rewrite padding_is_minus_one.
    eexists. split; [reflexivity|]. split; [|split].
    + rewrite length_app, length_map, repeat_length. lia.
    + rewrite take_app_length'; [reflexivity | now rewrite length_map].
    + rewrite drop_app_length'; [reflexivity | now rewrite length_map].
  - intros Hlt.
    destruct (Z.ltb_spec (Align.absolute_max_string_len self
                          - Z.of_nat (List.length label)) 0) as [_|Hge]; [|lia].
    split; [reflexivity|].
    intros records Hlabel. unfold Align.build. cbn.
    unfold Align.get_label in Hlabel |- *. cbn. rewrite Hlabel.
    unfold Align.get_padded_label, Np.ones. cbn.
    destruct (Z.ltb_spec (Align.absolute_max_string_len self
                          - Z.of_nat (List.length label)) 0) as [_|Hge]; [|lia].
    reflexivity.
Qed.

(** C7, on a label of three indices padded to five. *)
Lemma get_padded_label_pads_three_to_five :
  let self := Align.init 5 None in
  (3 <= 5 ->
   exists padded,
     Align.get_padded_label self [7; 8; 9] = Ok padded
     /\ Z.of_nat (List.length padded) = 5
     /\ take 3 padded = float_of_Z <$> [7; 8; 9]
     /\ drop 3 padded = repeat (-1)%float (Z.to_nat (5 - 3)))
  /\ (5 < 3 ->
      Align.get_padded_label self [7; 8; 9] = Raise ValueError
      /\ forall records,
           Align.get_label self (Align.get_sentence records) = Ok [7; 8; 9] ->
           snd (Align.build self records) = Raise ValueError).
Proof. exact (get_padded_label_pads_or_raises (Align.init 5 None) [7; 8; 9]). Defined.

(** A label of three indices does not fit a maximum of two. *)
Example get_padded_label_overflow :
  Align.get_padded_label (Align.init 2 None) [7; 8; 9] = Raise ValueError
  /\ Align.get_padded_label (Align.init 5 None) [7; 8; 9]
     = Ok [7; 8; 9; -1; -1]%float.
Proof. split; vm_compute; reflexivity. Qed.

Lemma parse_line_well_formed line r :
  Align.parse_line line = Ok r <-> Align.well_formed line r.
Proof.
  unfold Align.parse_line, Align.well_formed. destruct r as [[t0 t1] tok].
  cbn [fst snd Align.token].
  destruct (Align.fields line) as [|f0 [|f1 [|f2 rest]]];
    cbn -[int_truediv int_of_string].
  - split; [discriminate | intros (? & ? & ? & ? & ? & Heq & _); inversion Heq].
  - split; [|intros (? & ? & ? & ? & ? & Heq & _); inversion Heq].
    destruct (int_of_string f0) as [n0|]; cbn -[int_truediv]; [|discriminate].
    destruct (int_truediv n0 1000); discriminate.
  - split; [|intros (? & ? & ? & ? & ? & Heq & _); inversion Heq].
    destruct (int_of_string f0) as [n0|]; cbn -[int_truediv int_of_string];
      [|discriminate].
    destruct (int_truediv n0 1000); cbn -[int_truediv int_of_string];
      [|discriminate].
    destruct (int_of_string f1) as [n1|]; cbn -[int_truediv]; [|discriminate].
    destruct (int_truediv n1 1000); discriminate.
  - split.
    + intros Hp.
      apply bind_Ok_inv in Hp as (n0 & Hn0 & Hp).
      apply bind_Ok_inv in Hp as (a & Ha & Hp).
      apply bind_Ok_inv in Hp as (n1 & Hn1 & Hp).
      apply bind_Ok_inv in Hp as (b & Hb & Hp).
      injection Hp as -> -> ->.
      exists f0, f1, rest, n0, n1. auto.
    + intros (g0 & g1 & rest' & n0 & n1 & Heq & Hn0 & Ha & Hn1 & Hb).
      injection Heq as <- <- <- <-.
      rewrite Hn0. cbn -[int_truediv int_of_string]. rewrite Ha.
      cbn -[int_truediv int_of_string]. rewrite Hn1.
      cbn -[int_truediv]. rewrite Hb. reflexivity.
Qed.

(** C8 (as amended): the comprehension of [from_file] succeeds exactly when
    every line is well formed, that is, when the line, stripped and split at
    single spaces, has at least three fields of which the first two are
    integers for [int] whose thousandths fit a float; the records are then
    these two quotients by 1000 and the third field, and further fields are
    ignored.  It raises exactly when some line is not well formed, and
    [from_file] then raises the same exception without building anything;
    otherwise [from_file] goes on with [build]. *)
Theorem parse_lines_fails_iff_ill_formed (lines : list string) :
  (forall records,
     Align.parse_lines lines = Ok records <-> Forall2 Align.well_formed lines records)
  /\ ((exists e, Align.parse_lines lines = Raise e)
      <-> exists line, line ∈ lines /\ forall r, ~ Align.well_formed line r)
  /\ (forall self e,
        Align.parse_lines lines = Raise e ->
        Align.from_file self lines = (self, Raise e))
  /\ (forall self records,
        Align.parse_lines lines = Ok records ->
        Align.from_file self lines = Align.build self records).
Proof.
  assert (Hok : forall records,
             Align.parse_lines lines = Ok records
             <-> Forall2 Align.well_formed lines records).
  { intros records. unfold Align.parse_lines. rewrite mapM_Ok_Forall2.
    split; intros Hall; (eapply Forall2_impl; [exact Hall|]);
      intros line r; apply parse_line_well_formed. }
  split; [exact Hok|]. split; [|split].
  - split.
    + intros [e He]. unfold Align.parse_lines in He.
      apply mapM_Raise_first in He as (pre & line & post & -> & Hline & _).
      exists line. split.
      * apply elem_of_app. right. apply list_elem_of_here.
      * intros r Hr. apply parse_line_well_formed in Hr. congruence.
    + intros (line & Hin & Hbad).
      destruct (Align.parse_lines lines) as [records|e] eqn:Hp; [|eauto].
      clear Hp. pose proof (proj1 (Hok records) eq_refl) as Hp.
      apply list_elem_of_lookup in Hin as [i Hi].
      destruct (Forall2_lookup_l _ _ _ _ _ Hp Hi) as (r & _ & Hr).
      now destruct (Hbad r).
  - intros self e He. unfold Align.from_file. now rewrite He.
  - intros self records Hp. unfold Align.from_file. now rewrite Hp.
Qed.

(** C8 as first stated fails: this line splits into four fields, not three,
    and [from_file] does not fail on it; and a line whose three fields are
    separated by tabs is refused. *)
Lemma from_file_accepts_four_fields :
  let line := "0 1000 hello world" in
  let tabbed := "0" +:+ String (ascii_of_nat 9) ("1000" +:+ String (ascii_of_nat 9) "sp") in
  Align.fields line = ["0"; "1000"; "hello"; "world"]
  /\ Align.parse_lines [line] = Ok [(0%float, 1%float, "hello")]
  /\ snd (Align.from_file (Align.init 32 (Some (fun _ => Ok []))) [line]) = Ok ()
  /\ Align.parse_lines [tabbed] = Raise ValueError.
Proof. repeat split; vm_compute; reflexivity. Qed.

(** ** The driver *)

Lemma elem_of_range a b x : x ∈ range a b <-> a <= x < b.
Proof. unfold range. rewrite elem_of_seqZ. lia. Qed.

Lemma NoDup_range a b : NoDup (range a b).
Proof. apply NoDup_seqZ. Qed.

Section DriverProperties.

Context `{Platform}.

Lemma index_loop_cons tp st idx rest w :
  index_loop tp st (idx :: rest) w
  = match index_step tp st idx w with
    | (w', Ok st') => index_loop tp st' rest w'
    | (w', Raise e) => (w', Raise e)
    end.
Proof. reflexivity. Qed.

(** The two ways an iteration can end without stopping the loop. *)
Lemma index_step_Ok tp st idx w w' st' :
  index_step tp st idx w = (w', Ok st') ->
  source_path st' = next_source_path st idx
  /\ ((process_index (next_source_path st idx) tp w = (w', Ok ())
       /\ succ st' = succ st ∪ {[idx]} /\ fail st' = fail st)
      \/ (exists errno,
            process_index (next_source_path st idx) tp w = (w', Raise (OSError errno))
            /\ succ st' = succ st /\ fail st' = fail st ∪ {[idx]})).
Proof.
  unfold index_step.
  destruct (process_index (next_source_path st idx) tp w) as [w1 [[]|e]].
  - intros [= <- <-]. cbn. auto.
  - destruct e; cbn; try discriminate. intros [= <- <-]. cbn. eauto 6.
Qed.

Lemma index_step_Raise tp st idx w w' e :
  index_step tp st idx w = (w', Raise e) <->
  process_index (next_source_path st idx) tp w = (w', Raise e) /\ is_OSError e = false.
Proof.
  unfold index_step.
  destruct (process_index (next_source_path st idx) tp w) as [w1 [[]|e1]].
  - split; [discriminate | intros [[=] _]].
  - destruct (is_OSError e1) eqn:He1.
    + split; [discriminate | intros [[= <- <-] ?]; congruence].
    + split; [intros [= <- <-]; auto | intros [[= <- <-] _]; reflexivity].
Qed.

Lemma process_index_no_files sp tp w :
  find_files sp source_exts w = [] -> process_index sp tp w = (w, Ok ()).
Proof. unfold process_index. now intros ->. Qed.

Lemma filter_all_false {A} (f : A -> bool) (l : list A) :
  (forall x, x ∈ l -> f x = false) -> List.filter f l = [].
Proof.
  induction l as [|x l IH]; intros Hf; [reflexivity|]. cbn.
  rewrite (Hf x) by apply list_elem_of_here.
  apply IH. intros y Hy. apply Hf. now apply list_elem_of_further.
Qed.

Lemma find_files_no_match dir pattern w :
  (forall root files basename,
     (root, files) ∈ os_walk w dir -> basename ∈ files ->
     fnmatch basename pattern = false) ->
  find_files dir pattern w = [].
Proof.
  intros Hno. unfold find_files.
  induction (os_walk w dir) as [|[root files] walk IH]; [reflexivity|]. cbn.
  rewrite IH.
  - rewrite app_nil_r, filter_all_false; [reflexivity|].
    intros basename Hb. apply (Hno root files); [apply list_elem_of_here | exact Hb].
  - intros root' files' basename Hin. apply (Hno root' files').
    now apply list_elem_of_further.
Qed.

(** The sets at the end of a run that returns: each index went to exactly
    one of them. *)
Lemma index_loop_sets tp indices : forall st w w' st',
  index_loop tp st indices w = (w', Ok st') ->
  succ st' ∪ fail st' = succ st ∪ fail st ∪ list_to_set indices
  /\ (NoDup indices ->
      (forall i, i ∈ indices -> i ∉ succ st ∪ fail st) ->
      succ st ## fail st ->
      succ st' ## fail st').
Proof.
  induction indices as [|idx rest IH]; intros st w w' st' Hloop.
  - injection Hloop as <- <-. split; [set_solver | auto].
  - rewrite index_loop_cons in Hloop.
    destruct (index_step tp st idx w) as [w1 [st1|e]] eqn:Hstep; [|discriminate].
    apply index_step_Ok in Hstep as [_ Hstep].
    destruct (IH _ _ _ _ Hloop) as [Hunion Hdisj].
    assert (Hone : succ st1 ∪ fail st1 = succ st ∪ fail st ∪ {[idx]}
                   /\ (idx ∉ succ st ∪ fail st -> succ st ## fail st ->
                       succ st1 ## fail st1)).
    { destruct Hstep as [(_ & -> & ->)|(errno & _ & -> & ->)]; set_solver. }
    destruct Hone as [Hone Hdisj1].
    split.
    + rewrite Hunion, Hone. set_solver.
    + intros Hnodup Hfresh Hsf. apply NoDup_cons in Hnodup as [Hidx Hrest].
      apply Hdisj; [exact Hrest | |].
      * intros i Hi. rewrite Hone.
        specialize (Hfresh i (list_elem_of_further _ _ _ Hi)).
        set_solver.
      * apply Hdisj1; [|exact Hsf]. apply Hfresh, list_elem_of_here.
Qed.

(** The trace of a run that returns covers every index, and tells which
    indices are in which set. *)
Lemma index_loop_trace tp indices : forall st w w' st',
  index_loop tp st indices w = (w', Ok st') ->
  map (fun entry => fst (fst (fst entry))) (index_trace tp st indices w) = indices
  /\ (forall i, i ∈ fail st' <->
                i ∈ fail st
                \/ exists sp w0 w1 errno,
                     (i, sp, w0, (w1, Raise (OSError errno))) ∈ index_trace tp st indices w)
  /\ (forall i, i ∈ succ st' <->
                i ∈ succ st
                \/ exists sp w0 w1,
                     (i, sp, w0, (w1, Ok ())) ∈ index_trace tp st indices w).
Proof.
  induction indices as [|idx rest IH]; intros st w w' st' Hloop.
  - injection Hloop as <- <-. cbn. split; [reflexivity|].
    split; intros i; (split; [auto|]).
    + intros [Hi|(? & ? & ? & ? & Hin)]; [exact Hi | inversion Hin].
    + intros [Hi|(? & ? & ? & Hin)]; [exact Hi | inversion Hin].
  - rewrite index_loop_cons in Hloop. cbn [index_trace].
    destruct (index_step tp st idx w) as [w1 [st1|e]] eqn:Hstep; [|discriminate].
    apply index_step_Ok in Hstep as [_ Hstep].
    destruct (IH _ _ _ _ Hloop) as (Hmap & Hfail & Hsucc).
    split; [cbn; now rewrite Hmap|].
    split; intros i.
    + rewrite Hfail. split.
      * intros [Hi|(sp & w0 & w2 & errno & Hin)].
        -- destruct Hstep as [(_ & _ & Hf)|(errno & Hp & _ & Hf)]; rewrite Hf in Hi.
           ++ now left.
           ++ apply elem_of_union in Hi as [Hi|Hi]; [now left|].
              apply elem_of_singleton in Hi as ->. right.
              exists (next_source_path st idx), w, w1, errno.
              rewrite Hp. apply list_elem_of_here.
        -- right. exists sp, w0, w2, errno. now apply list_elem_of_further.
      * intros [Hi|(sp & w0 & w2 & errno & Hin)].
        -- left. destruct Hstep as [(_ & _ & ->)|(? & _ & _ & ->)]; set_solver.
        -- apply elem_of_cons in Hin as [Heq|Hin].
           ++ injection Heq as -> -> -> Hp. left.
              destruct Hstep as [(Hp' & _ & _)|(? & _ & _ & ->)]; [congruence | set_solver].
           ++ right. eauto 6.
    + rewrite Hsucc. split.
      * intros [Hi|(sp & w0 & w2 & Hin)].
        -- destruct Hstep as [(Hp & Hs & _)|(errno & _ & Hs & _)]; rewrite Hs in Hi.
           ++ apply elem_of_union in Hi as [Hi|Hi]; [now left|].
              apply elem_of_singleton in Hi as ->. right.
              exists (next_source_path st idx), w, w1.
              rewrite Hp. apply list_elem_of_here.
           ++ now left.
        -- right. exists sp, w0, w2. now apply list_elem_of_further.
      * intros [Hi|(sp & w0 & w2 & Hin)].
        -- left. destruct Hstep as [(_ & -> & _)|(? & _ & -> & _)]; set_solver.
        -- apply elem_of_cons in Hin as [Heq|Hin].
           ++ injection Heq as -> -> -> Hp. left.
              destruct Hstep as [(_ & -> & _)|(? & Hp' & _ & _)]; [set_solver | congruence].
           ++ right. eauto 6.
Qed.

Lemma preprocess_Ok from_idx to_idx params w w' sets :
  preprocess from_idx to_idx params w = (w', Ok sets) ->
  exists src tgt st,
    params !! "src_path" = Some src /\ params !! "tgt_path" = Some tgt
    /\ index_loop tgt {| source_path := src; succ := ∅; fail := ∅ |}
         (range from_idx to_idx) w = (w', Ok st)
    /\ sets = (succ st, fail st).
Proof.
  unfold preprocess, params_get, reading, mbind, io_bind, mret, io_ret.
  destruct (params !! "src_path") as [src|]; [|discriminate].
  destruct (params !! "tgt_path") as [tgt|]; [|discriminate].
  destruct (index_loop tgt {| source_path := src; succ := ∅; fail := ∅ |}
              (range from_idx to_idx) w) as [w1 [st|e]] eqn:Hloop;
    [|discriminate].
  intros [= <- <-]. exists src, tgt, st. auto.
Qed.

(** C10: when [preprocess] returns, the two sets are disjoint and together
    they are the indices from [from_idx] up to, and without, [to_idx]. *)
Theorem preprocess_partitions_range from_idx to_idx params w w' succeeded failed :
  preprocess from_idx to_idx params w = (w', Ok (succeeded, failed)) ->
  succeeded ## failed
  /\ succeeded ∪ failed = list_to_set (range from_idx to_idx)
  /\ forall idx, idx ∈ succeeded ∪ failed <-> from_idx <= idx < to_idx.
Proof.
  intros Hrun.
  apply preprocess_Ok in Hrun as (src & tgt & st & _ & _ & Hloop & [= -> ->]).
  apply index_loop_sets in Hloop as [Hunion Hdisj]. cbn in Hunion, Hdisj.
  assert (Hall : succ st ∪ fail st = list_to_set (range from_idx to_idx))
    by (rewrite Hunion; set_solver).
  split; [|split].
  - apply Hdisj; [apply NoDup_range | set_solver | set_solver].
  - exact Hall.
  - intros idx. rewrite Hall, elem_of_list_to_set. apply elem_of_range.
Qed.

(** X27: an [OSError] raised while an index is processed adds that index,
    and nothing else, to the failed set, and the loop goes on with the next
    index; an index for which the directory the loop searches, the
    accumulated [next_source_path], has no file matching the pattern (none
    at all when that directory does not exist) is added to the succeeded
    set; any other exception stops the run.  In a run that returns, every
    index of the range was processed, the failed indices are those whose
    processing raised an [OSError], and the succeeded ones those whose
    processing raised nothing. *)
Theorem preprocess_fails_only_on_OSError :
  (forall tp st idx rest w w' errno,
     process_index (next_source_path st idx) tp w = (w', Raise (OSError errno)) ->
     index_loop tp st (idx :: rest) w
     = index_loop tp {| source_path := next_source_path st idx;
                        succ := succ st;
                        fail := fail st ∪ {[idx]} |} rest w')
  /\ (forall tp st idx rest w,
        (forall root files basename,
           (root, files) ∈ os_walk w (next_source_path st idx) ->
           basename ∈ files -> fnmatch basename "*.mpg" = false) ->
        index_loop tp st (idx :: rest) w
        = index_loop tp {| source_path := next_source_path st idx;
                           succ := succ st ∪ {[idx]};
                           fail := fail st |} rest w)
  /\ (forall tp st idx rest w w' e,
        process_index (next_source_path st idx) tp w = (w', Raise e) ->
        is_OSError e = false ->
        index_loop tp st (idx :: rest) w = (w', Raise e))
  /\ (forall from_idx to_idx params w w' succeeded failed src tgt,
        params !! "src_path" = Some src ->
        params !! "tgt_path" = Some tgt ->
        preprocess from_idx to_idx params w = (w', Ok (succeeded, failed)) ->
        let trace := index_trace tgt {| source_path := src; succ := ∅; fail := ∅ |}
                       (range from_idx to_idx) w in
        map (fun entry => fst (fst (fst entry))) trace = range from_idx to_idx
        /\ (forall idx, idx ∈ failed <->
                        exists sp w0 w1 errno,
                          (idx, sp, w0, (w1, Raise (OSError errno))) ∈ trace)
        /\ (forall idx, idx ∈ succeeded <->
                        exists sp w0 w1, (idx, sp, w0, (w1, Ok ())) ∈ trace)).
Proof.
  split; [|split; [|split]].
  - intros tp st idx rest w w' errno Hp.
    rewrite index_loop_cons. unfold index_step. now rewrite Hp.
  - intros tp st idx rest w Hno.
    rewrite index_loop_cons. unfold index_step.
    now rewrite (process_index_no_files _ _ _ (find_files_no_match _ _ _ Hno)).
  - intros tp st idx rest w w' e Hp He.
    rewrite index_loop_cons.
    now rewrite (proj2 (index_step_Raise tp st idx w w' e) (conj Hp He)).
  - intros from_idx to_idx params w w' succeeded failed src tgt Hsrc Htgt Hrun trace.
    apply preprocess_Ok in Hrun as (src' & tgt' & st & Hsrc' & Htgt' & Hloop & [= -> ->]).
    assert (src' = src) as -> by congruence.
    assert (tgt' = tgt) as -> by congruence.
    apply index_loop_trace in Hloop as (Hmap & Hfail & Hsucc). cbn in Hfail, Hsucc.
    split; [exact Hmap|]. split; intros idx.
    + rewrite Hfail. split; [intros [Hi|Hi]; [set_solver | exact Hi] | auto].
    + rewrite Hsucc. split; [intros [Hi|Hi]; [set_solver | exact Hi] | auto].
Qed.

End DriverProperties.

(** ** The driver on the concrete platform *)

#[local] Existing Instance Demo.platform.

(** C10, on the indices 1, 2 and 3 of the concrete file system. *)
Lemma preprocess_partitions_one_to_four :
  exists w' succeeded failed,
    preprocess 1 4 Demo.params ([] : list string) = (w', Ok (succeeded, failed))
    /\ succeeded ## failed
    /\ succeeded ∪ failed = list_to_set (range 1 4)
    /\ forall idx, idx ∈ succeeded ∪ failed <-> 1 <= idx < 4.
Proof.
  assert (Hrun : exists w' succeeded failed,
             preprocess 1 4 Demo.params ([] : list string)
             = (w', Ok (succeeded, failed)))
    by (vm_compute; eauto).
  destruct Hrun as (w' & succeeded & failed & Hrun).
  exists w', succeeded, failed. split; [exact Hrun|].
  exact (preprocess_partitions_range 1 4 Demo.params [] w' succeeded failed Hrun).
Defined.

(** X27, on a run over the indices 3 and 4 that starts at the directory of
    index 3, whose only video cannot be read: index 3 fails and the run goes
    on to index 4, where nothing matches. *)
Lemma preprocess_fails_on_unreadable_video :
  preprocess 3 5 Demo.params ([] : list string) = ([], Ok ({[4]}, {[3]}))
  /\ let trace := index_trace "out" {| source_path := "data"; succ := ∅; fail := ∅ |}
                    (range 3 5) ([] : list string) in
     map (fun entry => fst (fst (fst entry))) trace = range 3 5
     /\ (forall idx, idx ∈ ({[3]} : gset Z) <->
                     exists sp w0 w1 errno,
                       (idx, sp, w0, (w1, Raise (OSError errno))) ∈ trace)
     /\ (forall idx, idx ∈ ({[4]} : gset Z) <->
                     exists sp w0 w1, (idx, sp, w0, (w1, Ok ())) ∈ trace).
Proof.
  assert (Hrun : preprocess 3 5 Demo.params ([] : list string)
                 = ([], Ok ({[4]}, {[3]})))
    by (vm_compute; reflexivity).
  split; [exact Hrun|].
  destruct (preprocess_fails_only_on_OSError (H := Demo.platform)) as (_ & _ & _ & Hall).
  exact (Hall 3 5 Demo.params [] [] {[4]} {[3]} "data" "out" eq_refl eq_refl Hrun).
Defined.

(** C9 fails on the code: on a file system that has no [data/s2] and where
    [data/s1/s2/bad.mpg] cannot be read, a run over the indices 1 and 2
    searches [data/s1//s2/] for index 2, catches the [OSError] of that video
    of speaker 1 and reports index 2 as failed, although the source
    directory of index 2 does not exist.  A run over index 2 alone reports it
    as succeeded. *)
Lemma preprocess_fails_index_without_source_directory :
  let w1 := ["out/a/mouth_002.png"; "out/a/mouth_001.png"; "out/a/mouth_000.png";
             "out/a"] in
  @os_walk Demo.nested_platform [] "data/s2/" = []
  /\ find_files (H := Demo.nested_platform) "data/s2/" source_exts [] = []
  /\ map (fun entry => (fst (fst (fst entry)), snd (fst (fst entry))))
       (index_trace (H := Demo.nested_platform) "out"
          {| source_path := "data"; succ := ∅; fail := ∅ |} (range 1 3) [])
     = [(1, "data/s1/"); (2, "data/s1//s2/")]
  /\ process_index (H := Demo.nested_platform) "data/s1//s2/" "out" w1
     = (w1, Raise (OSError 5))
  /\ preprocess (H := Demo.nested_platform) 1 3 Demo.params []
     = (w1, Ok (∅, {[1; 2]}))
  /\ preprocess (H := Demo.nested_platform) 2 3 Demo.params []
     = ([], Ok ({[2]}, ∅)).
Proof. repeat split; vm_compute; reflexivity. Qed.

(** C4 fails on the code: in a run over the indices 1 and 2 the directory
    searched for index 2 is [data/s1//s2/], not [data/s2/]; the video
    [data/s2/b.mpg] is never read, only the frames of [data/s1/a.mpg] are
    written, and index 2 is reported as succeeded. *)
Lemma preprocess_searches_nested_directory :
  map (fun entry => (fst (fst (fst entry)), snd (fst (fst entry))))
    (index_trace "out" {| source_path := "data"; succ := ∅; fail := ∅ |}
       (range 1 3) ([] : list string))
  = [(1, "data/s1/"); (2, "data/s1//s2/")]
  /\ find_files "data/s2/" source_exts ([] : list string) = ["data/s2/b.mpg"]
  /\ find_files "data/s1//s2/" source_exts ([] : list string) = []
  /\ preprocess 1 3 Demo.params ([] : list string)
     = (["out/a/mouth_002.png"; "out/a/mouth_001.png"; "out/a/mouth_000.png"; "out/a"],
        Ok ({[1; 2]}, ∅))
  /\ preprocess 2 3 Demo.params ([] : list string)
     = (["out/b/mouth_002.png"; "out/b/mouth_001.png"; "out/b/mouth_000.png"; "out/b"],
        Ok ({[2]}, ∅)).
Proof. repeat split; vm_compute; reflexivity. Qed.

Section SourcePath.

Context `{Platform}.

(** Every iteration that does not stop the loop extends the directory of
    the iteration before it. *)
Lemma index_step_source_path tp st idx w w' st' :
  index_step tp st idx w = (w', Ok st') ->
  source_path st' = source_path st +:+ "/s" +:+ str idx +:+ "/".
Proof. intros Hstep. now apply index_step_Ok in Hstep as [-> _]. Qed.

End SourcePath.

(** C8, on the three lines of the transcript example. *)
Lemma parse_lines_example_lines :
  let lines := ["0 1000 sp"; "1000 2000 hello"; "2000 2500 sil"] in
  (forall records,
     Align.parse_lines lines = Ok records <-> Forall2 Align.well_formed lines records)
  /\ ((exists e, Align.parse_lines lines = Raise e)
      <-> exists line, line ∈ lines /\ forall r, ~ Align.well_formed line r)
  /\ (forall self e,
        Align.parse_lines lines = Raise e ->
        Align.from_file self lines = (self, Raise e))
  /\ (forall self records,
        Align.parse_lines lines = Ok records ->
        Align.from_file self lines = Align.build self records).
Proof.
  exact (parse_lines_fails_iff_ill_formed
           ["0 1000 sp"; "1000 2000 hello"; "2000 2500 sil"]).
Defined.

(** The times of the example are the milliseconds divided by 1000; a line
    with too few fields raises [IndexError], a time that is not an integer
    raises [ValueError]. *)
Example parse_lines_examples :
  Align.parse_lines ["0 1000 sp"; "1000 2000 hello"; "2000 2500 sil"]
  = Ok [(0, 1, "sp"); (1, 2, "hello"); (2, 2.5, "sil")]%float
  /\ Align.parse_lines ["0 1000"] = Raise IndexError
  /\ Align.parse_lines ["0 1.5 sp"] = Raise ValueError
  /\ Align.parse_lines ["0  1000 sp"] = Raise ValueError
  /\ Align.parse_lines [""] = Raise ValueError.
Proof. repeat split; vm_compute; reflexivity. Qed.

(** * Further properties of the module *)

(** ** The landmark loops *)

Lemma mouth_points_from_drop (parts : list (Z * Z)) : forall i,
  -1 <= i < 48 ->
  Video.mouth_points_from i parts = drop (Z.to_nat (47 - i)) parts.
Proof.
  induction parts as [|part parts IH]; intros i Hi; cbn [Video.mouth_points_from].
  - now rewrite drop_nil.
  - destruct (Z.ltb_spec (i + 1) 48) as [Hlt|Hge].
    + rewrite IH by lia.
      replace (Z.to_nat (47 - i)) with (S (Z.to_nat (47 - (i + 1)))) by lia.
      reflexivity.
    + replace (Z.to_nat (47 - i)) with 0%nat by lia. cbn. f_equal.
      clear IH Hi. revert i Hge.
      induction parts as [|p parts IH]; intros i Hge; cbn [Video.mouth_points_from];
        [reflexivity|].
      destruct (Z.ltb_spec (i + 1 + 1) 48) as [Hlt|_]; [lia|].
      f_equal. specialize (IH (i + 1)).
      cbn [Video.mouth_points_from] in IH. apply IH. lia.
Qed.

Lemma mouth_points_drop (parts : list (Z * Z)) :
  Video.mouth_points parts = drop 48 parts.
Proof. unfold Video.mouth_points. now rewrite mouth_points_from_drop by lia. Qed.

(** X1: the loop over the parts of a shape keeps exactly the parts at
    positions 48 and above, in their order: of the 68 landmarks of the usual
    predictor, the last 20. *)
Theorem mouth_points_are_parts_from_48 (parts : list (Z * Z)) :
  Video.mouth_points parts = drop 48 parts
  /\ List.length (Video.mouth_points parts) = (List.length parts - 48)%nat.
Proof.
  split; [apply mouth_points_drop|]. now rewrite mouth_points_drop, length_drop.
Qed.

Section LandmarkProperties.

Context {Det : Type}.
Variable detector : ndarray -> list Det.
Variable predictor : ndarray -> Det -> list (Z * Z).
Variable imresize : ndarray -> Z * Z -> result ndarray.

Local Abbreviation detect_shape := (Video.detect_shape detector predictor).
Local Abbreviation frame_step := (Video.frame_step detector predictor imresize).
Local Abbreviation frames_loop := (Video.frames_loop detector predictor imresize).
Local Abbreviation get_frames_mouth := (Video.get_frames_mouth detector predictor imresize).
Local Abbreviation cropped_with := (Video.cropped_with detector predictor imresize).

(** X2: when the detector reports several faces in a frame, the landmarks
    used are those of the last one reported; with no face there are none. *)
Theorem detect_shape_keeps_last_detection (frame : ndarray) :
  detect_shape frame = predictor frame <$> last (detector frame).
Proof.
  unfold Video.detect_shape.
  assert (Hfold : forall dets acc,
             fold_left (fun _ det => Some (predictor frame det)) dets acc
             = match last dets with
               | Some det => Some (predictor frame det)
               | None => acc
               end).
  { induction dets as [|det dets IH]; intros acc; [reflexivity|].
    cbn [fold_left]. rewrite IH. destruct dets as [|d dets]; [reflexivity|].
    change (last (det :: d :: dets)) with (last (d :: dets)).
    destruct (last (d :: dets)) eqn:Hlast; [reflexivity|].
    now apply last_None in Hlast. }
  rewrite Hfold. now destruct (last (detector frame)).
Qed.

Lemma frames_loop_length frames : forall st st',
  frames_loop st frames = Ok (Some st') ->
  List.length (Video.mouth_frames st')
  = (List.length (Video.mouth_frames st) + List.length frames)%nat.
Proof.
  induction frames as [|f frames IH]; intros st st' Hloop; cbn in Hloop.
  - injection Hloop as <-. cbn. lia.
  - apply bind_Ok_inv in Hloop as ([st1|] & Hstep & Hloop); [|discriminate].
    apply frame_step_Some in Hstep as (_ & _ & img & _ & _ & _ & _ & Hframes).
    rewrite (IH _ _ Hloop), Hframes, length_app. cbn. lia.
Qed.

(** X3: whenever [get_frames_mouth] returns, with crops or with the input
    it gave up on, it returns as many frames as it was given. *)
Theorem get_frames_mouth_keeps_length (frames out : list ndarray) :
  get_frames_mouth frames = Ok out -> List.length out = List.length frames.
Proof.
  unfold Video.get_frames_mouth. intros Hget.
  apply bind_Ok_inv in Hget as ([st|] & Hloop & [= <-]); [|reflexivity].
  now rewrite (frames_loop_length _ _ _ Hloop).
Qed.

(** X4: a face whose shape has no part at position 48 or above (a
    predictor with at most 48 landmarks) leaves no mouth point, and the
    frame raises [IndexError] as soon as the loop gets to it, whatever the
    ratio already computed. *)
Theorem frame_without_mouth_points_raises (frame : ndarray) (parts : list (Z * Z)) :
  detect_shape frame = Some parts ->
  (List.length parts <= 48)%nat ->
  (forall st, frame_step st frame = Raise IndexError)
  /\ (forall rest, get_frames_mouth (frame :: rest) = Raise IndexError).
Proof.
  intros Hdet Hlen.
  assert (Hstep : forall st, frame_step st frame = Raise IndexError).
  { intros st. unfold Video.frame_step. rewrite Hdet.
    rewrite mouth_points_drop. now rewrite drop_ge by lia. }
  split; [exact Hstep|].
  intros rest. unfold Video.get_frames_mouth. cbn. now rewrite Hstep.
Qed.

End LandmarkProperties.

(** X3, on the clip whose three frames all show a face. *)
Lemma get_frames_mouth_keeps_length_moving_clip :
  exists out,
    Video.get_frames_mouth Demo.detector Demo.predictor Demo.resize Demo.moving_clip
    = Ok out
    /\ List.length out = 3%nat.
Proof.
  assert (Hrun : exists out,
             Video.get_frames_mouth Demo.detector Demo.predictor Demo.resize
               Demo.moving_clip = Ok out)
    by (vm_compute; eauto).
  destruct Hrun as [out Hrun]. exists out. split; [exact Hrun|].
  exact (get_frames_mouth_keeps_length Demo.detector Demo.predictor Demo.resize
           Demo.moving_clip out Hrun).
Defined.

(** X4, with a predictor of five landmarks. *)
Lemma frame_without_mouth_points_five_landmarks :
  let predictor := fun (_ : ndarray) (_ : unit) => repeat (10, 10) 5 in
  (forall st, Video.frame_step Demo.detector predictor Demo.resize st (Demo.frame 1)
              = Raise IndexError)
  /\ (forall rest,
        Video.get_frames_mouth Demo.detector predictor Demo.resize (Demo.frame 1 :: rest)
        = Raise IndexError).
Proof.
  apply (frame_without_mouth_points_raises Demo.detector
           (fun (_ : ndarray) (_ : unit) => repeat (10, 10) 5) Demo.resize
           (Demo.frame 1) (repeat (10, 10) 5)).
  - reflexivity.
  - cbn. lia.
Defined.

(** ** When tensor packing succeeds *)

Lemma swap_at_01 {A} (a b : A) (rest : list A) :
  Np.swap_at 0 1 (a :: b :: rest) = b :: a :: rest.
Proof.
  unfold Np.swap_at. apply list_eq. intros i.
  rewrite list_lookup_imap. destruct i as [|[|i]]; cbn; try reflexivity.
  now destruct (rest !! i).
Qed.

Lemma pack_frame_low_ndim (f : ndarray) :
  (ndim f < 2)%nat -> Video.pack_frame f = Raise ValueError.
Proof.
  unfold Video.pack_frame, Np.swapaxes, ndim.
  destruct (shape f) as [|h [|w rest]]; cbn; [reflexivity | reflexivity | lia].
Qed.

Lemma pack_frame_shape (f : ndarray) :
  (2 <= ndim f)%nat ->
  exists g, Video.pack_frame f = Ok g
            /\ shape g = Np.swap_at 0 1 (Video.with_channel (shape f)).
Proof.
  unfold ndim. intros Hn.
  destruct (shape f) as [|h [|w [|c rest]]] eqn:Hs; cbn in Hn; try lia.
  - destruct (pack_frame_2d f h w Hs) as (g & Hg & Hsg & _).
    exists g. split; [exact Hg|]. rewrite Hsg.
    unfold Video.with_channel. cbn [List.length Nat.eqb app]. now rewrite swap_at_01.
  - unfold Video.pack_frame, Np.swapaxes, ndim. rewrite Hs. cbn [List.length].
    cbn [Nat.ltb Nat.leb andb mbind result_bind shape].
    rewrite swap_at_01. cbn [List.length Nat.ltb Nat.leb].
    eexists. split; [reflexivity|]. cbn [shape].
    unfold Video.with_channel. cbn [List.length Nat.eqb]. now rewrite swap_at_01.
Qed.

Lemma with_channel_length (s : list nat) :
  (2 <= List.length s)%nat -> (3 <= List.length (Video.with_channel s))%nat.
Proof.
  unfold Video.with_channel. intros Hs.
  destruct (Nat.eqb_spec (List.length s) 2) as [Heq|Hne].
  - rewrite length_app. cbn. lia.
  - lia.
Qed.

Lemma swap_at_01_length {A} (l : list A) :
  List.length (Np.swap_at 0 1 l) = List.length l.
Proof. unfold Np.swap_at. apply length_imap. Qed.

Lemma swap_at_01_inj {A} (l k : list A) :
  (2 <= List.length l)%nat -> (2 <= List.length k)%nat ->
  Np.swap_at 0 1 l = Np.swap_at 0 1 k -> l = k.
Proof.
  destruct l as [|a [|b l]]; cbn [List.length]; try lia.
  destruct k as [|c [|d k]]; cbn [List.length]; try lia.
  intros _ _. rewrite !swap_at_01. congruence.
Qed.

Lemma mapM_Raise_kind {A B} (f : A -> result B) (l : list A) (e0 : exn) :
  (forall x e, f x = Raise e -> e = e0) ->
  forall e, mapM f l = Raise e -> e = e0.
Proof.
  intros Hf e He. apply mapM_Raise_first in He as (_ & x & _ & _ & Hx & _).
  now apply (Hf x).
Qed.

Lemma pack_frame_Raise (f : ndarray) (e : exn) :
  Video.pack_frame f = Raise e -> e = ValueError /\ (ndim f < 2)%nat.
Proof.
  intros He. destruct (Nat.lt_ge_cases (ndim f) 2) as [Hlt|Hge].
  - rewrite (pack_frame_low_ndim f Hlt) in He. split; [congruence | exact Hlt].
  - destruct (pack_frame_shape f Hge) as (g & Hg & _). congruence.
Qed.

(** After the loop: stacking, rolling and swapping succeed exactly on a
    non-empty list of arrays of one shape with three axes or more, and
    raise [ValueError] otherwise. *)
Lemma stack_roll_swap_cases (k : list ndarray) :
  (forall e, (Np.array k ≫= fun a => Np.rollaxis a 3 ≫= Np.swapaxes 2 3) = Raise e ->
             e = ValueError)
  /\ ((exists arr, (Np.array k ≫= fun a => Np.rollaxis a 3 ≫= Np.swapaxes 2 3) = Ok arr)
      <-> k <> []
          /\ exists s, (3 <= List.length s)%nat /\ Forall (fun g => shape g = s) k).
Proof.
  destruct k as [|a rest].
  - cbn. split; [intros e [= <-]; reflexivity|].
    split; [intros [arr [=]] | intros [Hne _]; congruence].
  - destruct (forallb (fun b => bool_decide (shape b = shape a)) rest) eqn:Hall.
    + assert (Hshapes : Forall (fun g => shape g = shape a) (a :: rest)).
      { constructor; [reflexivity|]. apply Forall_forall. intros b Hb.
        rewrite forallb_forall in Hall.
        eapply bool_decide_eq_true_1, Hall. now apply list_elem_of_In. }
      rewrite (array_stack (a :: rest) (shape a)) by (congruence || exact Hshapes).
      cbn [mbind result_bind]. unfold Np.rollaxis. cbn [shape].
      destruct (shape a) as [|x [|y [|z s]]] eqn:Hs; cbn.
      1-3: split; [intros e [= <-]; reflexivity|];
           split; [intros [arr [=]]|];
           intros (_ & s' & Hlen & Hall');
           apply Forall_inv in Hall'; rewrite Hs in Hall'; subst s'; cbn in Hlen; lia.
      split; [intros e He; exfalso; revert He|].
      * unfold Np.swapaxes, ndim. cbn. discriminate.
      * split; [|intros _; unfold Np.swapaxes, ndim; cbn; eauto].
        intros _. split; [discriminate|].
        exists (x :: y :: z :: s). split; [cbn; lia | exact Hshapes].
    + unfold Np.array. rewrite Hall. cbn.
      split; [intros e [= <-]; reflexivity|].
      split; [intros [arr [=]]|].
      intros (_ & s & _ & Hshapes).
      assert (Htrue : forallb (fun b => bool_decide (shape b = shape a)) rest = true);
        [|congruence].
      apply forallb_forall. intros b Hb. apply bool_decide_eq_true.
      rewrite Forall_forall in Hshapes.
      rewrite (Hshapes a) by apply list_elem_of_here.
      apply Hshapes. apply list_elem_of_further. now apply list_elem_of_In.
Qed.

Lemma set_data_stages self frames :
  Video.set_data self frames
  = match mapM Video.pack_frame frames with
    | Raise e => Raise e
    | Ok k =>
        match Np.array k ≫= fun a => Np.rollaxis a 3 ≫= Np.swapaxes 2 3 with
        | Raise e => Raise e
        | Ok arr =>
            Ok {| Video.face_predictor_path := Video.face_predictor_path self;
                  Video.vtype := Video.vtype self;
                  Video.face := Video.face self;
                  Video.mouth := Video.mouth self;
                  Video.data := Some arr;
                  Video.length := Some (List.length k) |}
        end
    end.
Proof.
  unfold Video.set_data.
  destruct (mapM Video.pack_frame frames) as [k|e]; [|reflexivity].
  cbn [mbind result_bind].
  destruct (Np.array k) as [a|e]; [|reflexivity]. cbn [mbind result_bind].
  destruct (Np.rollaxis a 3) as [b|e]; [|reflexivity]. cbn [mbind result_bind].
  destruct (Np.swapaxes 2 3 b) as [c|e]; reflexivity.
Qed.

(** X5: [set_data] succeeds exactly when there is at least one frame, every
    frame has two axes or more, and all frames have the same shape once the
    frames without a channel axis are given one of length one; every failure
    is a [ValueError]. *)
Theorem set_data_succeeds_iff self (frames : list ndarray) :
  (forall e, Video.set_data self frames = Raise e -> e = ValueError)
  /\ ((exists v, Video.set_data self frames = Ok v)
      <-> frames <> []
          /\ Forall (fun f => (2 <= ndim f)%nat) frames
          /\ forall f g, f ∈ frames -> g ∈ frames ->
               Video.with_channel (shape f) = Video.with_channel (shape g)).
Proof.
  rewrite set_data_stages.
  destruct (mapM Video.pack_frame frames) as [k|e0] eqn:Hk.
  - apply mapM_Ok_Forall2 in Hk.
    assert (Hndim : Forall (fun f => (2 <= ndim f)%nat) frames).
    { eapply Forall2_Forall_l; [exact Hk|]. apply Forall_forall.
      intros g _ f Hf. destruct (Nat.lt_ge_cases (ndim f) 2) as [Hlt|Hge]; [|exact Hge].
      rewrite (pack_frame_low_ndim f Hlt) in Hf. discriminate. }
    assert (Hpacked : Forall2 (fun f g => shape g = Np.swap_at 0 1 (Video.with_channel (shape f)))
                        frames k).
    { eapply Forall2_impl; [exact Hk|]. intros f g Hf. cbn in Hf.
      destruct (Nat.lt_ge_cases (ndim f) 2) as [Hlt|Hge].
      - rewrite (pack_frame_low_ndim f Hlt) in Hf. discriminate.
      - destruct (pack_frame_shape f Hge) as (g' & Hg' & Hs). congruence. }
    destruct (stack_roll_swap_cases k) as [Hraise Hok].
    split.
    + intros e He.
      destruct (Np.array k ≫= fun a => Np.rollaxis a 3 ≫= Np.swapaxes 2 3) as [arr|e1] eqn:Hs;
        [discriminate|]. injection He as <-. now apply Hraise.
    + split.
      * intros [v Hv].
        destruct (Np.array k ≫= fun a => Np.rollaxis a 3 ≫= Np.swapaxes 2 3) as [arr|e1] eqn:Hs;
          [|discriminate].
        destruct (proj1 Hok (ex_intro _ arr eq_refl)) as (Hne & s & Hlen & Hshapes).
        split; [|split; [exact Hndim|]].
        -- intros ->. apply Forall2_nil_inv_l in Hk. congruence.
        -- intros f g Hf Hg.
           apply list_elem_of_lookup in Hf as [i Hi], Hg as [j Hj].
           destruct (Forall2_lookup_l _ _ _ _ _ Hpacked Hi) as (f' & Hf' & Hsf).
           destruct (Forall2_lookup_l _ _ _ _ _ Hpacked Hj) as (g' & Hg' & Hsg).
           rewrite Forall_forall in Hshapes, Hndim.
           apply swap_at_01_inj.
           ++ pose proof (with_channel_length (shape f)
                            (Hndim f (proj2 (list_elem_of_lookup _ _) (ex_intro _ i Hi)))). lia.
           ++ pose proof (with_channel_length (shape g)
                            (Hndim g (proj2 (list_elem_of_lookup _ _) (ex_intro _ j Hj)))). lia.
           ++ rewrite <- Hsf, <- Hsg.
              rewrite (Hshapes f') by (apply list_elem_of_lookup; eauto).
              rewrite (Hshapes g') by (apply list_elem_of_lookup; eauto).
              reflexivity.
      * intros (Hne & _ & Hsame).
        destruct frames as [|f0 frames']; [congruence|].
        set (s := Np.swap_at 0 1 (Video.with_channel (shape f0))).
        destruct (proj2 Hok) as [arr Harr].
        { split.
          - intros ->. apply Forall2_nil_inv_r in Hk. discriminate.
          - exists s. split.
            + subst s. rewrite swap_at_01_length. apply with_channel_length.
              apply Forall_inv in Hndim. exact Hndim.
            + eapply Forall2_Forall_r; [exact Hpacked|]. apply Forall_forall.
              intros f Hf g ->. subst s. f_equal.
              apply Hsame; [exact Hf | apply list_elem_of_here]. }
        rewrite Harr. eauto.
  - split.
    + intros e [= <-].
      apply (mapM_Raise_kind Video.pack_frame frames ValueError) with (e := e0);
        [|exact Hk].
      intros x e Hx. now apply pack_frame_Raise in Hx as [-> _].
    + split; [intros [v [=]]|].
      intros (_ & Hndim & _).
      apply mapM_Raise_first in Hk as (pre & x & post & -> & Hx & _).
      apply pack_frame_Raise in Hx as [_ Hx].
      apply Forall_app in Hndim as [_ Hndim]. apply Forall_inv in Hndim. lia.
Qed.

(** ** Video objects *)

Lemma set_data_Ok_fields self frames v :
  Video.set_data self frames = Ok v ->
  Video.face_predictor_path v = Video.face_predictor_path self
  /\ Video.vtype v = Video.vtype self
  /\ Video.face v = Video.face self
  /\ Video.mouth v = Video.mouth self
  /\ is_Some (Video.data v)
  /\ Video.length v = Some (List.length frames).
Proof.
  rewrite set_data_stages.
  destruct (mapM Video.pack_frame frames) as [k|e] eqn:Hk; [|discriminate].
  destruct (Np.array k ≫= _) as [arr|e]; [|discriminate].
  intros [= <-]. cbn. repeat split; eauto.
  apply mapM_Ok_Forall2, Forall2_length in Hk. now rewrite Hk.
Qed.

Section VideoProperties.

Context `{Platform}.

(** X6: a video of type "mouth" built from an array of frames keeps the
    frames as they are, as its face and as its mouth, never calls the
    detector or reads the world, and records their number. *)
Theorem from_array_mouth_keeps_frames self (frames : list ndarray) (w : world) v :
  Video.vtype self = "mouth" ->
  Video.from_array self frames w = Ok v ->
  Video.face v = Some frames
  /\ Video.mouth v = Some frames
  /\ Video.length v = Some (List.length frames)
  /\ is_Some (Video.data v)
  /\ forall w', Video.from_array self frames w' = Ok v.
Proof.
  intros Hvt. unfold Video.from_array, Video.handle_type. rewrite Hvt. cbn.
  unfold Video.process_frames_mouth. intros Hv.
  destruct (set_data_Ok_fields _ _ _ Hv) as (_ & _ & Hface & Hmouth & Hdata & Hlen).
  cbn in Hface, Hmouth. auto.
Qed.

(** X7: a video of type "face" whose first frame shows no face ends up
    exactly as a video of type "mouth" would on the same frames, but for
    its type: nothing is cropped. *)
Theorem from_array_face_undetected_as_mouth self frame (rest : list ndarray)
    (w : world) path predictor :
  Video.vtype self = "face" ->
  Video.face_predictor_path self = Some path ->
  shape_predictor w path = Ok predictor ->
  Video.detect_shape get_frontal_face_detector predictor frame = None ->
  Video.from_array self (frame :: rest) w
  = Video.process_frames_mouth self (frame :: rest).
Proof.
  intros Hvt Hpath Hpred Hdet.
  unfold Video.from_array, Video.handle_type. rewrite Hvt. cbn.
  unfold Video.process_frames_face, Video.process_frames_mouth.
  rewrite Hpath, Hpred. cbn [mbind result_bind].
  rewrite (get_frames_mouth_returns_input get_frontal_face_detector predictor imresize
             [] frame rest Hdet) by discriminate.
  reflexivity.
Qed.

(** X8: the constructor refuses a face video without a predictor path, and
    nothing else; a video of an unknown type raises [Exception] when it is
    given frames, and [from_video] has by then read the whole video. *)
Theorem video_type_errors :
  (forall vtype path,
     Video.init vtype path = Raise AttributeError <-> vtype = "face" /\ path = None)
  /\ (forall vtype path,
        ~ (vtype = "face" /\ path = None) ->
        Video.init vtype path
        = Ok {| Video.face_predictor_path := path; Video.vtype := vtype;
                Video.face := None; Video.mouth := None;
                Video.data := None; Video.length := None |})
  /\ (forall self frames (w : world),
        Video.vtype self <> "mouth" -> Video.vtype self <> "face" ->
        Video.from_array self frames w = Raise (OtherError "Exception"))
  /\ (forall self path (w : world),
        Video.vtype self <> "mouth" -> Video.vtype self <> "face" ->
        Video.from_video self path w
        = match vreader w path with
          | Ok _ => Raise (OtherError "Exception")
          | Raise e => Raise e
          end).
Proof.
  assert (Hinit : forall vtype path,
             Video.init vtype path
             = if bool_decide (vtype = "face" /\ path = None)
               then Raise AttributeError
               else Ok {| Video.face_predictor_path := path; Video.vtype := vtype;
                          Video.face := None; Video.mouth := None;
                          Video.data := None; Video.length := None |}).
  { intros vtype path. unfold Video.init.
    destruct (String.eqb_spec vtype "face") as [->|Hne]; cbn.
    - destruct path; cbn; reflexivity.
    - rewrite bool_decide_eq_false_2; [reflexivity | intros [? _]; congruence]. }
  assert (Hunknown : forall self frames (w : world),
             Video.vtype self <> "mouth" -> Video.vtype self <> "face" ->
             Video.handle_type self frames w = Raise (OtherError "Exception")).
  { intros self frames w Hm Hf. unfold Video.handle_type.
    destruct (String.eqb_spec (Video.vtype self) "mouth"); [congruence|].
    destruct (String.eqb_spec (Video.vtype self) "face"); [congruence|].
    reflexivity. }
  split; [|split; [|split]].
  - intros vtype path. rewrite Hinit. case_bool_decide; split; auto; try discriminate.
    intros. contradiction.
  - intros vtype path Hno. rewrite Hinit. now rewrite bool_decide_eq_false_2.
  - exact Hunknown.
  - intros self path w Hm Hf. unfold Video.from_video, Video.get_video_frames.
    destruct (vreader w path) as [frames|e]; cbn; [now apply Hunknown | reflexivity].
Qed.

End VideoProperties.

(** X6, on the moving clip kept as a mouth video. *)
Lemma from_array_mouth_keeps_moving_clip :
  let self := {| Video.face_predictor_path := None; Video.vtype := "mouth";
                 Video.face := None; Video.mouth := None;
                 Video.data := None; Video.length := None |} in
  exists v,
    Video.from_array self Demo.moving_clip ([] : list string) = Ok v
    /\ Video.face v = Some Demo.moving_clip
    /\ Video.mouth v = Some Demo.moving_clip
    /\ Video.length v = Some 3%nat
    /\ is_Some (Video.data v)
    /\ forall w', Video.from_array self Demo.moving_clip w' = Ok v.
Proof.
  intros self.
  assert (Hrun : exists v,
             Video.from_array self Demo.moving_clip ([] : list string) = Ok v)
    by (vm_compute; eauto).
  destruct Hrun as [v Hrun]. exists v. split; [exact Hrun|].
  exact (from_array_mouth_keeps_frames self Demo.moving_clip [] v eq_refl Hrun).
Defined.

(** X7, on a face video whose first frame shows no face. *)
Lemma from_array_face_undetected_first_only :
  let self := {| Video.face_predictor_path := Some "predictor.dat";
                 Video.vtype := "face";
                 Video.face := None; Video.mouth := None;
                 Video.data := None; Video.length := None |} in
  Video.from_array self [Demo.frame 0; Demo.frame 1] ([] : list string)
  = Video.process_frames_mouth self [Demo.frame 0; Demo.frame 1].
Proof.
  intros self.
  exact (from_array_face_undetected_as_mouth self (Demo.frame 0) [Demo.frame 1]
           ([] : list string) "predictor.dat" Demo.predictor
           eq_refl eq_refl eq_refl eq_refl).
Defined.

(** ** Sentences and their words *)

Lemma append_empty_l (s : string) : EmptyString +:+ s = s.
Proof. reflexivity. Qed.

Lemma append_String (c : ascii) (a s : string) :
  String c a +:+ s = String c (a +:+ s).
Proof. reflexivity. Qed.

Lemma split_nonempty sep s : Py.split sep s <> [].
Proof.
  destruct s as [|c s]; cbn [Py.split]; [discriminate|].
  destruct (Ascii.eqb c sep); [discriminate|].
  destruct (Py.split sep s); discriminate.
Qed.

Lemma split_free sep s :
  sep ∉ list_ascii_of_string s -> Py.split sep s = [s].
Proof.
  induction s as [|c s IH]; cbn [Py.split list_ascii_of_string]; [reflexivity|].
  intros Hfree.
  destruct (Ascii.eqb_spec c sep) as [->|Hne].
  - destruct Hfree. apply list_elem_of_here.
  - rewrite IH; [reflexivity|]. intros Hin. apply Hfree.
    now apply list_elem_of_further.
Qed.

Lemma split_app_sep sep a b :
  sep ∉ list_ascii_of_string a ->
  Py.split sep (a +:+ String sep b) = a :: Py.split sep b.
Proof.
  induction a as [|c a IH]; intros Hfree.
  - rewrite append_empty_l. cbn [Py.split]. now rewrite Ascii.eqb_refl.
  - rewrite append_String. cbn [Py.split list_ascii_of_string] in Hfree |- *.
    destruct (Ascii.eqb_spec c sep) as [->|Hne].
    + destruct Hfree. apply list_elem_of_here.
    + rewrite IH; [reflexivity|]. intros Hin. apply Hfree.
      now apply list_elem_of_further.
Qed.

Lemma split_fields_free sep s :
  Forall (fun field => sep ∉ list_ascii_of_string field) (Py.split sep s).
Proof.
  induction s as [|c s IH]; cbn [Py.split].
  - constructor; [|constructor]. cbn. apply not_elem_of_nil.
  - destruct (Ascii.eqb_spec c sep) as [->|Hne].
    + constructor; [cbn; apply not_elem_of_nil | exact IH].
    + destruct (Py.split sep s) as [|h t].
      * constructor; [|constructor]. cbn. intros Hin.
        apply elem_of_cons in Hin as [?|Hin]; [congruence|].
        now apply not_elem_of_nil in Hin.
      * inversion IH as [|? ? Hh Ht]; subst. constructor; [|exact Ht].
        cbn. intros Hin. apply elem_of_cons in Hin as [?|Hin]; [congruence|].
        now apply Hh.
Qed.

Lemma split_join sep (l : list string) :
  l <> [] ->
  Forall (fun word => sep ∉ list_ascii_of_string word) l ->
  Py.split sep (join (String sep EmptyString) l) = l.
Proof.
  induction l as [|x l IH]; [congruence|]. intros _ Hfree.
  inversion Hfree as [|? ? Hx Hl]; subst.
  destruct l as [|y l]; cbn [join].
  - now apply split_free.
  - rewrite append_String, append_empty_l.
    rewrite split_app_sep by exact Hx. f_equal. now apply IH.
Qed.

Lemma well_formed_token_free line r :
  Align.well_formed line r -> " "%char ∉ list_ascii_of_string (Align.token r).
Proof.
  intros (f0 & f1 & rest & n0 & n1 & Hfields & _).
  pose proof (split_fields_free " " (Py.strip line)) as Hfree.
  fold (Align.fields line) in Hfree. rewrite Hfields in Hfree.
  now inversion Hfree as [|? ? _ [|? ? _ [|? ? Htok _]]].
Qed.

Lemma parse_lines_tokens_free lines records :
  Align.parse_lines lines = Ok records ->
  Forall (fun r => " "%char ∉ list_ascii_of_string (Align.token r)) records.
Proof.
  intros Hp. unfold Align.parse_lines in Hp. apply mapM_Ok_Forall2 in Hp.
  eapply Forall2_Forall_r; [exact Hp|]. apply Forall_forall.
  intros line _ r Hr. apply parse_line_well_formed in Hr.
  now apply well_formed_token_free in Hr.
Qed.

Lemma from_file_align_sentence self lines records :
  Align.parse_lines lines = Ok records ->
  let kept := filter (fun r => ~ Align.is_filler r) records in
  Align.align (fst (Align.from_file self lines)) = Some kept
  /\ Align.sentence (fst (Align.from_file self lines))
     = Some (join " " (Align.token <$> kept)).
Proof.
  intros Hp kept. subst kept. unfold Align.from_file. rewrite Hp.
  destruct (build_align_sentence self records) as [-> ->].
  unfold Align.get_sentence. fold (Align.strip records ["sp"; "sil"]).
  now rewrite strip_fillers.
Qed.

(** X9: after [from_file] has parsed its lines, the sentence splits at
    spaces back into the tokens of the records kept in [self.align], since
    no parsed token contains a space; [word_length] is their number, except
    that it is 1, not 0, when every record is a filler (or there is no line
    at all) and the sentence is empty. *)
Theorem from_file_sentence_splits_into_tokens self lines records :
  Align.parse_lines lines = Ok records ->
  let self' := fst (Align.from_file self lines) in
  let kept := filter (fun r => ~ Align.is_filler r) records in
  (kept <> [] ->
   exists s, Align.sentence self' = Some s /\ Py.split " " s = Align.token <$> kept)
  /\ (kept = [] -> Align.sentence self' = Some "")
  /\ Align.word_length self' = Ok (Nat.max 1 (List.length kept)).
Proof.
  intros Hp self' kept.
  destruct (from_file_align_sentence self lines records Hp) as [_ Hs].
  fold kept in Hs. fold self' in Hs.
  assert (Hfree : Forall (fun word => " "%char ∉ list_ascii_of_string word)
                    (Align.token <$> kept)).
  { apply Forall_fmap. apply Forall_forall. intros r Hr.
    pose proof (parse_lines_tokens_free lines records Hp) as Hall.
    rewrite Forall_forall in Hall. apply Hall.
    subst kept. now apply list_elem_of_filter in Hr as [_ Hr]. }
  assert (Hsplit : kept <> [] ->
                   Py.split " " (join " " (Align.token <$> kept)) = Align.token <$> kept).
  { intros Hne. apply split_join; [|exact Hfree].
    destruct kept; [congruence | discriminate]. }
  split; [|split].
  - intros Hne. eexists. split; [exact Hs | now apply Hsplit].
  - intros Hnil. now rewrite Hs, Hnil.
  - unfold Align.word_length. rewrite Hs.
    destruct kept as [|r kept'] eqn:Hk; [reflexivity|].
    rewrite Hsplit by discriminate. rewrite length_fmap. cbn [List.length].
    f_equal; lia.
Qed.

(** X9, on the three lines of the transcript example. *)
Lemma from_file_sentence_splits_example :
  let lines := ["0 1000 sp"; "1000 2000 hello"; "2000 2500 sil"] in
  let records := [(0, 1, "sp"); (1, 2, "hello"); (2, 2.5, "sil")]%float in
  let self' := fst (Align.from_file (Align.init 32 None) lines) in
  let kept := filter (fun r => ~ Align.is_filler r) records in
  (kept <> [] ->
   exists s, Align.sentence self' = Some s /\ Py.split " " s = Align.token <$> kept)
  /\ (kept = [] -> Align.sentence self' = Some "")
  /\ Align.word_length self' = Ok (Nat.max 1 (List.length kept)).
Proof.
  apply (from_file_sentence_splits_into_tokens (Align.init 32 None)
           ["0 1000 sp"; "1000 2000 hello"; "2000 2500 sil"]).
  vm_compute. reflexivity.
Defined.

(** ** Built alignments *)

Lemma get_padded_label_cases self (label : list Z) :
  let room := Align.absolute_max_string_len self - Z.of_nat (List.length label) in
  Align.get_padded_label self label
  = if room <? 0 then Raise ValueError
    else Ok (map float_of_Z label ++ repeat (-1)%float (Z.to_nat room)).
Proof.
  intros room. unfold Align.get_padded_label, Np.ones. fold room.
  destruct (room <? 0); [reflexivity|]. cbn. now rewrite padding_is_minus_one.
Qed.

(** X10: [build] succeeds exactly when the label function returns a label
    no longer than [absolute_max_string_len]; the object then holds that
    label, of which [label_length] is the length, and a padded label of
    length [absolute_max_string_len].  When [build] raises, the padded label
    of the object is left as it was. *)
Theorem build_succeeds_iff_label_fits self records :
  let self' := fst (Align.build self records) in
  let outcome := snd (Align.build self records) in
  (outcome = Ok ()
   <-> exists lbl,
         Align.get_label self (Align.get_sentence records) = Ok lbl
         /\ Z.of_nat (List.length lbl) <= Align.absolute_max_string_len self)
  /\ (outcome = Ok () ->
      exists lbl padded,
        Align.label self' = Some lbl
        /\ Align.padded_label self' = Some padded
        /\ Align.label_length self' = Ok (List.length lbl)
        /\ Z.of_nat (List.length lbl) <= Align.absolute_max_string_len self'
        /\ Z.of_nat (List.length padded) = Align.absolute_max_string_len self'
        /\ Align.absolute_max_string_len self' = Align.absolute_max_string_len self)
  /\ (forall e, outcome = Raise e -> Align.padded_label self' = Align.padded_label self).
Proof.
  intros self' outcome. subst self' outcome. unfold Align.build.
  change (Align.get_label _ (Align.get_sentence records))
    with (Align.get_label self (Align.get_sentence records)).
  destruct (Align.get_label self (Align.get_sentence records)) as [lbl|e] eqn:Hl.
  - match goal with
    | |- context [Align.get_padded_label ?s lbl] =>
        rewrite (get_padded_label_cases s lbl)
    end.
    cbn [Align.absolute_max_string_len].
    destruct (Z.ltb_spec (Align.absolute_max_string_len self
                          - Z.of_nat (List.length lbl)) 0) as [Hlt|Hge];
      cbn [fst snd].
    + split; [|split].
      * split; [discriminate|]. intros (lbl' & [= <-] & Hfit). lia.
      * discriminate.
      * reflexivity.
    + split; [|split].
      * split; [|reflexivity]. intros _. exists lbl. split; [reflexivity | lia].
      * intros _. eexists lbl, _. cbn.
        repeat split; try reflexivity; [lia|].
        rewrite length_app, length_map, repeat_length. lia.
      * discriminate.
  - cbn [fst snd]. split; [|split].
    + split; [discriminate | intros (lbl & [=] & _)].
    + discriminate.
    + reflexivity.
Qed.

(** ** Whitespace around a line *)

Lemma lstrip_whitespace (s : string) :
  Forall (fun c => isspace c = true) (list_ascii_of_string s) -> lstrip s = EmptyString.
Proof.
  induction s as [|c s IH]; cbn [lstrip list_ascii_of_string]; [reflexivity|].
  intros Hws. inversion Hws as [|? ? Hc Hs]; subst. rewrite Hc. now apply IH.
Qed.

Lemma rstrip_whitespace (s : string) :
  Forall (fun c => isspace c = true) (list_ascii_of_string s) -> rstrip s = EmptyString.
Proof.
  induction s as [|c s IH]; cbn [rstrip list_ascii_of_string]; [reflexivity|].
  intros Hws. inversion Hws as [|? ? Hc Hs]; subst. now rewrite IH, Hc.
Qed.

Lemma lstrip_app_l (pre s : string) :
  Forall (fun c => isspace c = true) (list_ascii_of_string pre) ->
  lstrip (pre +:+ s) = lstrip s.
Proof.
  induction pre as [|c pre IH]; intros Hws; [reflexivity|].
  cbn [list_ascii_of_string] in Hws. inversion Hws as [|? ? Hc Hs]; subst.
  rewrite append_String. cbn [lstrip]. rewrite Hc. now apply IH.
Qed.

Lemma lstrip_app_r (s post : string) :
  lstrip (s +:+ post)
  = match lstrip s with
    | EmptyString => lstrip post
    | String _ _ => lstrip s +:+ post
    end.
Proof.
  induction s as [|c s IH]; [reflexivity|].
  rewrite append_String. cbn [lstrip].
  destruct (isspace c); [exact IH | reflexivity].
Qed.

Lemma rstrip_app_r (s post : string) :
  Forall (fun c => isspace c = true) (list_ascii_of_string post) ->
  rstrip (s +:+ post) = rstrip s.
Proof.
  intros Hws. induction s as [|c s IH].
  - rewrite append_empty_l. now apply rstrip_whitespace.
  - rewrite append_String. cbn [rstrip]. now rewrite IH.
Qed.

Lemma strip_surrounded (pre s post : string) :
  Forall (fun c => isspace c = true) (list_ascii_of_string pre) ->
  Forall (fun c => isspace c = true) (list_ascii_of_string post) ->
  Py.strip (pre +:+ s +:+ post) = Py.strip s.
Proof.
  intros Hpre Hpost. unfold Py.strip.
  rewrite lstrip_app_l by exact Hpre. rewrite lstrip_app_r.
  destruct (lstrip s) as [|c r] eqn:Hs.
  - now rewrite (lstrip_whitespace post Hpost).
  - now apply rstrip_app_r.
Qed.

(** X11: white space before and after a line, such as the newline that
    [readlines] leaves at its end, changes neither its fields nor the record
    or the exception it gives. *)
Theorem parse_line_ignores_surrounding_whitespace (pre line post : string) :
  Forall (fun c => isspace c = true) (list_ascii_of_string pre) ->
  Forall (fun c => isspace c = true) (list_ascii_of_string post) ->
  Align.fields (pre +:+ line +:+ post) = Align.fields line
  /\ Align.parse_line (pre +:+ line +:+ post) = Align.parse_line line.
Proof.
  intros Hpre Hpost.
  assert (Hfields : Align.fields (pre +:+ line +:+ post) = Align.fields line).
  { unfold Align.fields. now rewrite strip_surrounded. }
  split; [exact Hfields|]. unfold Align.parse_line. now rewrite Hfields.
Qed.

(** X11, on a line indented by a tab and ended by a newline. *)
Lemma parse_line_ignores_tab_and_newline :
  let tab := String (ascii_of_nat 9) EmptyString in
  let newline := String (ascii_of_nat 10) EmptyString in
  Align.fields (tab +:+ "1000 2000 hello" +:+ newline) = Align.fields "1000 2000 hello"
  /\ Align.parse_line (tab +:+ "1000 2000 hello" +:+ newline)
     = Align.parse_line "1000 2000 hello".
Proof.
  apply parse_line_ignores_surrounding_whitespace;
    repeat constructor.
Defined.

(** ** Files and directories *)

Section FileProperties.

Context `{Platform}.

(** X12: [mkdir_p] raises exactly what [os.makedirs] raises, except that
    the [OSError] with errno [EEXIST] is swallowed when the path is then a
    directory; it never changes the world beyond what [os.makedirs] did. *)
Theorem mkdir_p_swallows_existing_directory (path : string) (w : world) :
  let w' := fst (os_makedirs w path) in
  let outcome := snd (os_makedirs w path) in
  fst (mkdir_p path w) = w'
  /\ (snd (mkdir_p path w) = Ok ()
      <-> outcome = Ok ()
          \/ (outcome = Raise (OSError EEXIST) /\ os_path_isdir w' path = true))
  /\ (forall e, snd (mkdir_p path w) = Raise e -> outcome = Raise e).
Proof.
  intros w' outcome. subst w' outcome. unfold mkdir_p.
  destruct (os_makedirs w path) as [w1 [[]|e]]; cbn [fst snd].
  - split; [reflexivity|]. split; [tauto | discriminate].
  - destruct e as [errno| | | | | | | |];
      try (split; [reflexivity|]; split;
           [split; [discriminate | intros [?|[? _]]; discriminate] | auto]).
    destruct (Z.eqb_spec errno EEXIST) as [->|Hne]; cbn [andb].
    + destruct (os_path_isdir w1 path) eqn:Hdir; cbn [fst snd].
      * split; [reflexivity|]. split; [split; auto | discriminate].
      * split; [reflexivity|].
        split; [split; [discriminate | intros [?|[_ ?]]; discriminate] | auto].
    + cbn [fst snd]. split; [reflexivity|].
      split; [split; [discriminate | intros [?|[? _]]; [discriminate | congruence]] | auto].
Qed.

(** X13: [find_files] yields a path exactly when it is the join of a
    directory of the walk with one of its file names that matches the
    pattern. *)
Theorem find_files_yields_matching_files (directory pattern : string) (w : world)
    (filename : string) :
  filename ∈ find_files directory pattern w
  <-> exists root files basename,
        (root, files) ∈ os_walk w directory
        /\ basename ∈ files
        /\ fnmatch basename pattern = true
        /\ filename = Path.join root basename.
Proof.
  unfold find_files. rewrite list_elem_of_In, in_flat_map. split.
  - intros ([root files] & Hwalk & Hin).
    apply in_map_iff in Hin as (basename & <- & Hb).
    apply filter_In in Hb as [Hb Hmatch].
    exists root, files, basename. rewrite !list_elem_of_In. auto.
  - intros (root & files & basename & Hwalk & Hb & Hmatch & ->).
    exists (root, files). rewrite <- list_elem_of_In. split; [exact Hwalk|].
    apply in_map, filter_In. rewrite <- list_elem_of_In. auto.
Qed.

(** X14: without the key "src_path", or without the key "tgt_path",
    [preprocess] raises [KeyError] before it touches anything. *)
Theorem preprocess_missing_key from_idx to_idx (params : gmap string string) (w : world) :
  params !! "src_path" = None \/ params !! "tgt_path" = None ->
  preprocess from_idx to_idx params w = (w, Raise KeyError).
Proof.
  unfold preprocess, params_get, reading, mbind, io_bind.
  intros [Hsrc|Htgt].
  - now rewrite Hsrc.
  - rewrite Htgt. now destruct (params !! "src_path").
Qed.

(** X15: on an empty range of indices, [to_idx <= from_idx], [preprocess]
    returns two empty sets and touches nothing. *)
Theorem preprocess_empty_range from_idx to_idx (params : gmap string string)
    (w : world) src tgt :
  params !! "src_path" = Some src ->
  params !! "tgt_path" = Some tgt ->
  to_idx <= from_idx ->
  preprocess from_idx to_idx params w = (w, Ok (∅, ∅)).
Proof.
  intros Hsrc Htgt Hle.
  unfold preprocess, params_get, reading, mbind, io_bind, mret, io_ret.
  rewrite Hsrc, Htgt. unfold range, seqZ.
  replace (Z.to_nat (to_idx - from_idx)) with 0%nat by lia. reflexivity.
Qed.

End FileProperties.

(** X14, with no parameter at all. *)
Lemma preprocess_missing_key_empty_params :
  preprocess 1 4 (∅ : gmap string string) ([] : list string) = ([], Raise KeyError).
Proof.
  exact (preprocess_missing_key (H := Demo.platform) 1 4 ∅ [] (or_introl eq_refl)).
Defined.

(** X15, on the range from 5 to 5. *)
Lemma preprocess_empty_range_five_five :
  preprocess 5 5 Demo.params ([] : list string) = ([], Ok (∅, ∅)).
Proof.
  apply (preprocess_empty_range (H := Demo.platform) 5 5 Demo.params [] "data" "out");
    [reflexivity | reflexivity | lia].
Defined.

(** ** The directory searched for each index *)

Lemma append_assoc (a b c : string) : (a +:+ b) +:+ c = a +:+ (b +:+ c).
Proof.
  induction a as [|x a IH]; [reflexivity|].
  rewrite !append_String. now rewrite IH.
Qed.

Lemma append_empty_r (a : string) : a +:+ EmptyString = a.
Proof.
  induction a as [|x a IH]; [reflexivity|]. rewrite append_String. now rewrite IH.
Qed.

Section SearchedDirectory.

Context `{Platform}.

Lemma next_source_path_segment st idx :
  next_source_path st idx = source_path st +:+ ("/s" +:+ str idx +:+ "/").
Proof. unfold next_source_path. reflexivity. Qed.

(** X16: the directory searched for the k-th index of a run is the source
    path of the start followed by one segment [/s<i>/] for every index up to
    and including that one: only for the first index is it the index's own
    directory under the source path. *)
Theorem searched_directory_accumulates tp (indices : list Z) :
  forall st (w : world) k idx sp w0 outcome,
    index_trace tp st indices w !! k = Some (idx, sp, w0, outcome) ->
    indices !! k = Some idx
    /\ sp = source_path st
            +:+ foldr (fun i rest => "/s" +:+ str i +:+ "/" +:+ rest) ""
                  (take (S k) indices).
Proof.
  induction indices as [|i indices IH]; intros st w k idx sp w0 outcome Hk;
    [discriminate|].
  cbn [index_trace] in Hk. destruct k as [|k].
  - injection Hk as <- <- <- <-. split; [reflexivity|].
    cbn [take foldr]. rewrite next_source_path_segment. reflexivity.
  - cbn [lookup list_lookup] in Hk.
    change ((_ :: ?l) !! S k) with (l !! k) in Hk.
    destruct (index_step tp st i w) as [w1 [st1|e]] eqn:Hstep; [|discriminate].
    apply index_step_Ok in Hstep as [Hsp _].
    destruct (IH _ _ _ _ _ _ _ Hk) as [Hidx ->].
    split; [exact Hidx|].
    rewrite Hsp, next_source_path_segment.
    cbn [take foldr]. now rewrite !append_assoc.
Qed.

End SearchedDirectory.

(** X16, on the second index of a run over the indices 1 and 2. *)
Lemma searched_directory_second_index :
  exists w0 outcome,
    index_trace "out" {| source_path := "data"; succ := ∅; fail := ∅ |}
      (range 1 3) ([] : list string) !! 1%nat
    = Some (2, "data/s1//s2/", w0, outcome)
    /\ range 1 3 !! 1%nat = Some 2
    /\ "data/s1//s2/"
       = "data" +:+ foldr (fun i rest => "/s" +:+ str i +:+ "/" +:+ rest) ""
                      (take 2 (range 1 3)).
Proof.
  assert (Hk : exists w0 outcome,
             index_trace "out" {| source_path := "data"; succ := ∅; fail := ∅ |}
               (range 1 3) ([] : list string) !! 1%nat
             = Some (2, "data/s1//s2/", w0, outcome))
    by (vm_compute; eauto).
  destruct Hk as (w0 & outcome & Hk). exists w0, outcome. split; [exact Hk|].
  exact (searched_directory_accumulates (H := Demo.platform) "out" (range 1 3)
           {| source_path := "data"; succ := ∅; fail := ∅ |} [] 1
           2 "data/s1//s2/" w0 outcome Hk).
Defined.

(** ** Videos that fail *)

Section FailingVideos.

Context `{Platform}.

(** X17: a video that cannot be read or packed leaves the world as it was,
    no directory made and no image written; and once a file of an index
    has raised, the files that follow it in that index are not processed:
    the exception and the world it left are those of the index. *)
Theorem failing_video_stops_its_index (target_path filepath : string)
    (rest : list string) (w : world) :
  let video := {| Video.face_predictor_path := Some face_predictor_path;
                  Video.vtype := "face";
                  Video.face := None; Video.mouth := None;
                  Video.data := None; Video.length := None |} in
  (forall e, Video.from_video video filepath w = Raise e ->
             process_file target_path filepath w = (w, Raise e))
  /\ (forall w' e, process_file target_path filepath w = (w', Raise e) ->
                   process_files target_path (filepath :: rest) w = (w', Raise e))
  /\ (forall directory w' e,
        find_files directory source_exts w = filepath :: rest ->
        process_file target_path filepath w = (w', Raise e) ->
        process_index directory target_path w = (w', Raise e)).
Proof.
  intros video.
  assert (Hfiles : forall w' e,
             process_file target_path filepath w = (w', Raise e) ->
             process_files target_path (filepath :: rest) w = (w', Raise e)).
  { intros w' e Hp. cbn [process_files]. unfold mbind, io_bind. now rewrite Hp. }
  split; [|split].
  - intros e He. unfold process_file, reading, mbind, io_bind. cbn.
    fold video. now rewrite He.
  - exact Hfiles.
  - intros directory w' e Hfind Hp. unfold process_index. rewrite Hfind.
    now apply Hfiles.
Qed.

End FailingVideos.

(** The video of index 3 of the concrete file system cannot be read. *)
Example unreadable_video_on_demo :
  process_file "out" "data/s3/bad.mpg" ([] : list string) = ([], Raise (OSError 5))
  /\ process_index "data/s3/" "out" ([] : list string) = ([], Raise (OSError 5)).
Proof. split; vm_compute; reflexivity. Qed.

(** ** A video without frames *)

Section EmptyVideo.

Context `{Platform}.

Lemma set_data_empty self : Video.set_data self [] = Raise ValueError.
Proof. reflexivity. Qed.

(** X18: a video file that decodes to no frame at all makes [from_video]
    raise [ValueError] (there is nothing to pack); this is no [OSError], so
    the loop of [preprocess] does not record the index as failed: the whole
    run stops there, with the world as it was before that video. *)
Theorem empty_video_stops_the_run (target_path filepath : string) (rest : list string)
    (st : loop_state) (idx : Z) (more : list Z) (w : world) predictor :
  find_files (next_source_path st idx) source_exts w = filepath :: rest ->
  vreader w filepath = Ok [] ->
  shape_predictor w face_predictor_path = Ok predictor ->
  process_file target_path filepath w = (w, Raise ValueError)
  /\ index_loop target_path st (idx :: more) w = (w, Raise ValueError).
Proof.
  intros Hfind Hread Hpred.
  assert (Hfile : process_file target_path filepath w = (w, Raise ValueError)).
  { unfold process_file, reading, mbind, io_bind. cbn.
    unfold Video.from_video, Video.get_video_frames. rewrite Hread. cbn.
    unfold Video.process_frames_face. cbn. rewrite Hpred. reflexivity. }
  split; [exact Hfile|].
  rewrite index_loop_cons.
  rewrite (proj2 (index_step_Raise target_path st idx w w ValueError));
    [reflexivity|].
  split; [|reflexivity].
  unfold process_index. rewrite Hfind. cbn [process_files].
  unfold mbind, io_bind. now rewrite Hfile.
Qed.

End EmptyVideo.

(** X18, on the first video of the platform whose videos have no frame. *)
Lemma empty_video_stops_the_run_on_silent_platform :
  let st := {| source_path := "data"; succ := ∅; fail := ∅ |} in
  process_file (H := Demo.silent_platform) "out" "data/s1/a.mpg" []
  = ([], Raise ValueError)
  /\ index_loop (H := Demo.silent_platform) "out" st [1; 2] [] = ([], Raise ValueError).
Proof.
  exact (empty_video_stops_the_run (H := Demo.silent_platform)
           "out" "data/s1/a.mpg" [] {| source_path := "data"; succ := ∅; fail := ∅ |}
           1 [2] [] Demo.predictor eq_refl eq_refl eq_refl).
Defined.

(** ** Frames read from a directory *)

Lemma ascii_compare_refl (a : ascii) : Ascii.compare a a = Eq.
Proof. unfold Ascii.compare. apply N.compare_refl. Qed.

Lemma ascii_compare_Lt_trans (a b c : ascii) :
  Ascii.compare a b = Lt -> Ascii.compare b c = Lt -> Ascii.compare a c = Lt.
Proof.
  unfold Ascii.compare. rewrite !N.compare_lt_iff. apply N.lt_trans.
Qed.

Lemma string_compare_le_trans (s1 : string) : forall s2 s3,
  String.compare s1 s2 <> Gt -> String.compare s2 s3 <> Gt ->
  String.compare s1 s3 <> Gt.
Proof.
  induction s1 as [|c1 r1 IH]; intros [|c2 r2] [|c3 r3]; cbn [String.compare];
    try discriminate; try congruence.
  destruct (Ascii.compare c1 c2) eqn:H12; [| |congruence];
    (destruct (Ascii.compare c2 c3) eqn:H23; [| |congruence]); intros Ha Hb.
  - apply Ascii.compare_eq_iff in H12 as ->. apply Ascii.compare_eq_iff in H23 as ->.
    rewrite ascii_compare_refl. now apply (IH r2).
  - apply Ascii.compare_eq_iff in H12 as ->. now rewrite H23.
  - apply Ascii.compare_eq_iff in H23 as <-. now rewrite H12.
  - now rewrite (ascii_compare_Lt_trans _ _ _ H12 H23).
Qed.

Lemma leb_compare (a b : string) : String.leb a b = true <-> String.compare a b <> Gt.
Proof. unfold String.leb. destruct (String.compare a b); split; congruence. Qed.

#[local] Instance str_le_trans : Transitive str_le.
Proof.
  intros a b c. unfold str_le. rewrite !leb_compare. apply string_compare_le_trans.
Qed.

#[local] Instance str_le_antisym : AntiSymm (=) str_le.
Proof. intros a b. unfold str_le. apply String.leb_antisym. Qed.

#[local] Instance str_le_total : Total str_le.
Proof. intros a b. unfold str_le. apply String.leb_total. Qed.


Section FramesDirectory.

Context `{Platform}.


End FramesDirectory.


(** The paths of the two names are read in this order. *)
Example sorted_paths_example :
  sorted (map (Path.join "clip") ["b.png"; "a.png"; "a10.png"; "a2.png"])
  = ["clip/a.png"; "clip/a10.png"; "clip/a2.png"; "clip/b.png"].
Proof. vm_compute. reflexivity. Qed.

(** ** The name of the target directory *)

Lemma rfind_scan (c : ascii) (p : string) :
  Path.rfind c p = Path.rfind_from c 0 (-1) (list_ascii_of_string p).
Proof. reflexivity. Qed.

Lemma rfind_from_absent c (l : list ascii) : forall i found,
  c ∉ l -> Path.rfind_from c i found l = found.
Proof.
  induction l as [|x l IH]; intros i found Hc; [reflexivity|].
  cbn [Path.rfind_from]. destruct (Ascii.eqb_spec x c) as [->|Hne].
  - destruct Hc. apply list_elem_of_here.
  - apply IH. intros Hin. apply Hc. now apply list_elem_of_further.
Qed.

Lemma rfind_from_last c (a b : list ascii) : forall i found,
  c ∉ b ->
  Path.rfind_from c i found (a ++ c :: b) = i + Z.of_nat (List.length a).
Proof.
  induction a as [|x a IH]; intros i found Hc.
  - cbn [app Path.rfind_from List.length]. rewrite Ascii.eqb_refl.
    rewrite rfind_from_absent by exact Hc. lia.
  - cbn [app Path.rfind_from List.length]. rewrite IH by exact Hc. lia.
Qed.

Lemma list_ascii_of_append (a b : string) :
  list_ascii_of_string (a +:+ b) = list_ascii_of_string a ++ list_ascii_of_string b.
Proof.
  induction a as [|x a IH]; [reflexivity|].
  rewrite append_String. cbn [list_ascii_of_string app]. now rewrite IH.
Qed.

Lemma length_list_ascii (a : string) :
  List.length (list_ascii_of_string a) = String.length a.
Proof. induction a as [|x a IH]; cbn; [reflexivity | now rewrite IH]. Qed.

Lemma substring_prefix (a b : string) :
  substring 0 (String.length a) (a +:+ b) = a.
Proof.
  induction a as [|x a IH].
  - cbn [String.length]. rewrite append_empty_l. now destruct b.
  - rewrite append_String. cbn [String.length substring]. now rewrite IH.
Qed.

Lemma substring_skip (a b : string) (m : nat) :
  substring (String.length a) m (a +:+ b) = substring 0 m b.
Proof.
  induction a as [|x a IH]; [reflexivity|].
  rewrite append_String. cbn [String.length substring]. exact IH.
Qed.

Lemma string_length_append (a b : string) :
  String.length (a +:+ b) = (String.length a + String.length b)%nat.
Proof.
  induction a as [|x a IH]; [reflexivity|].
  rewrite append_String. cbn [String.length]. now rewrite IH.
Qed.

Lemma forallb_dots_false (l : list ascii) :
  (exists c, c ∈ l /\ c <> "."%char) -> forallb (Ascii.eqb ".") l = false.
Proof.
  intros (c & Hin & Hne). induction Hin as [c l|c x l Hin IH]; cbn [forallb].
  - destruct (Ascii.eqb_spec "." c); [congruence | reflexivity].
  - rewrite IH by exact Hne. apply andb_false_r.
Qed.

Lemma split_two_fields sep a b :
  exists h1 h2 t, Py.split sep (a +:+ String sep b) = h1 :: h2 :: t.
Proof.
  induction a as [|c a (h1 & h2 & t & IH)].
  - rewrite append_empty_l. cbn [Py.split]. rewrite Ascii.eqb_refl.
    destruct (Py.split sep b) as [|h t] eqn:Hb; [now apply split_nonempty in Hb|].
    eauto.
  - rewrite append_String. cbn [Py.split]. rewrite IH.
    destruct (Ascii.eqb c sep); eauto.
Qed.

Lemma last_split_app sep a b :
  last (Py.split sep (a +:+ String sep b)) = last (Py.split sep b).
Proof.
  induction a as [|c a IH].
  - rewrite append_empty_l. cbn [Py.split]. rewrite Ascii.eqb_refl.
    destruct (Py.split sep b) as [|h t] eqn:Hb; [now apply split_nonempty in Hb|].
    reflexivity.
  - rewrite append_String. cbn [Py.split]. rewrite <- IH.
    destruct (split_two_fields sep a b) as (h1 & h2 & t & ->).
    destruct (Ascii.eqb c sep); reflexivity.
Qed.

Lemma splitext_root_of_stem (root stem ext : string) :
  root = EmptyString \/ (exists r, root = r +:+ "/") ->
  "/"%char ∉ list_ascii_of_string stem ->
  "/"%char ∉ list_ascii_of_string ext ->
  "."%char ∉ list_ascii_of_string ext ->
  (exists c, c ∈ list_ascii_of_string stem /\ c <> "."%char) ->
  Path.splitext_root (root +:+ stem +:+ "." +:+ ext) = root +:+ stem.
Proof.
  intros Hroot Hstem Hext Hdot Hname.
  set (p := root +:+ stem +:+ "." +:+ ext).
  assert (Hchars : list_ascii_of_string p
                   = (list_ascii_of_string root ++ list_ascii_of_string stem)
                       ++ "."%char :: list_ascii_of_string ext).
  { subst p. rewrite !list_ascii_of_append. cbn [list_ascii_of_string].
    now rewrite <- app_assoc. }
  assert (Hdi : Path.rfind "." p
                = Z.of_nat (String.length root) + Z.of_nat (String.length stem)).
  { rewrite rfind_scan, Hchars, rfind_from_last by exact Hdot.
    rewrite length_app, !length_list_ascii. lia. }
  assert (Hslash : "/"%char ∉ list_ascii_of_string stem ++ "."%char :: list_ascii_of_string ext).
  { intros Hin. apply elem_of_app in Hin as [Hin|Hin]; [now apply Hstem|].
    apply elem_of_cons in Hin as [Hin|Hin]; [discriminate | now apply Hext]. }
  assert (Hsi : Path.rfind "/" p = Z.of_nat (String.length root) - 1).
  { rewrite rfind_scan, Hchars, <- app_assoc. cbn [app].
    destruct Hroot as [->|[r ->]].
    - cbn [list_ascii_of_string app String.length].
      now rewrite rfind_from_absent by exact Hslash.
    - rewrite list_ascii_of_append. cbn [list_ascii_of_string].
      rewrite <- app_assoc. cbn [app].
      rewrite rfind_from_last by exact Hslash.
      rewrite length_list_ascii, string_length_append. cbn [String.length]. lia. }
  assert (Hstem_len : (0 < String.length stem)%nat).
  { destruct Hname as (c & Hc & _). destruct stem; [|cbn; lia].
    cbn in Hc. now apply not_elem_of_nil in Hc. }
  unfold Path.splitext_root. fold p. rewrite Hdi, Hsi.
  destruct (Z.ltb_spec (Z.of_nat (String.length root) - 1)
              (Z.of_nat (String.length root) + Z.of_nat (String.length stem)))
    as [_|Hge]; [|lia].
  replace (Z.to_nat (Z.of_nat (String.length root) - 1 + 1))
    with (String.length root) by lia.
  replace (Z.to_nat (Z.of_nat (String.length root) + Z.of_nat (String.length stem)
                     - (Z.of_nat (String.length root) - 1) - 1))
    with (String.length stem) by lia.
  replace (Z.to_nat (Z.of_nat (String.length root) + Z.of_nat (String.length stem)))
    with (String.length (root +:+ stem)) by (rewrite string_length_append; lia).
  subst p. rewrite substring_skip, substring_prefix.
  rewrite forallb_dots_false by exact Hname.
  rewrite <- append_assoc. apply substring_prefix.
Qed.

(** X20: for a video [<root><stem>.<ext>], where [root] is empty or ends
    with a slash, the name under which its frames are written is [stem]
    alone: the target directory of a video is the join of the target path
    with the stem of its file name, whatever directory the video is in. *)
Theorem target_directory_is_the_stem (root stem ext : string) :
  root = EmptyString \/ (exists r, root = r +:+ "/") ->
  "/"%char ∉ list_ascii_of_string stem ->
  "/"%char ∉ list_ascii_of_string ext ->
  "."%char ∉ list_ascii_of_string ext ->
  (exists c, c ∈ list_ascii_of_string stem /\ c <> "."%char) ->
  let filepath := root +:+ stem +:+ "." +:+ ext in
  Path.splitext_root filepath = root +:+ stem
  /\ last (Py.split "/" (Path.splitext_root filepath)) = Some stem.
Proof.
  intros Hroot Hstem Hext Hdot Hname filepath. subst filepath.
  rewrite splitext_root_of_stem by assumption.
  split; [reflexivity|].
  destruct Hroot as [->|[r ->]].
  - rewrite append_empty_l. now rewrite split_free.
  - rewrite append_assoc, append_String, append_empty_l.
    rewrite last_split_app. now rewrite split_free.
Qed.

(** X20, on the first video of the concrete file system. *)
Lemma target_directory_of_first_video :
  let filepath := "data/s1/" +:+ "a" +:+ "." +:+ "mpg" in
  Path.splitext_root filepath = "data/s1/" +:+ "a"
  /\ last (Py.split "/" (Path.splitext_root filepath)) = Some "a".
Proof.
  apply (target_directory_is_the_stem "data/s1/" "a" "mpg").
  - right. exists "data/s1". reflexivity.
  - apply (bool_decide_unpack _). vm_compute. exact I.
  - apply (bool_decide_unpack _). vm_compute. exact I.
  - apply (bool_decide_unpack _). vm_compute. exact I.
  - exists "a"%char. split; [apply list_elem_of_here | discriminate].
Defined.

(** Two videos of the same name in the directories of two speakers are
    written to the same target directory. *)
Example same_stem_same_target :
  default "" (last (Py.split "/" (Path.splitext_root "data/s1/bbaf2n.mpg")))
  = default "" (last (Py.split "/" (Path.splitext_root "data/s2/bbaf2n.mpg"))).
Proof. vm_compute. reflexivity. Qed.

(** ** The names of the images *)

Lemma string_of_to_uint (n : N) :
  NilZero.string_of_uint (N.to_uint n) = NilEmpty.string_of_uint (N.to_uint n).
Proof.
  destruct (N.to_uint n) eqn:Hn; try reflexivity.
  destruct n as [|p]; [discriminate|].
  now apply DecimalPos.Unsigned.to_uint_nonnil in Hn.
Qed.

Lemma uint_of_zeros (k : nat) (s : string) (d : Decimal.uint) :
  NilEmpty.uint_of_string s = Some d ->
  exists d', NilEmpty.uint_of_string (string_of_list_ascii (repeat "0"%char k) +:+ s)
             = Some d'
             /\ N.of_uint d' = N.of_uint d.
Proof.
  intros Hs. induction k as [|k (d' & Hd' & Hval)].
  - exists d. now rewrite append_empty_l.
  - exists (Decimal.D0 d'). cbn [repeat string_of_list_ascii].
    rewrite append_String. cbn [NilEmpty.uint_of_string]. rewrite Hd'.
    split; [reflexivity | exact Hval].
Qed.

(** The number a name of [format_03d] stands for. *)
Lemma format_03d_value (z : Z) :
  0 <= z ->
  exists d, NilEmpty.uint_of_string (format_03d z) = Some d
            /\ N.of_uint d = Z.to_N z.
Proof.
  intros Hz. unfold format_03d.
  destruct (Z.ltb_spec z 0) as [Hneg|_]; [lia|].
  rewrite append_empty_l, string_of_to_uint.
  destruct (uint_of_zeros
              (3 - (String.length "" + String.length
                      (NilEmpty.string_of_uint (N.to_uint (Z.abs_N z)))))
              _ _ (NilEmpty.usu (N.to_uint (Z.abs_N z)))) as (d & Hd & Hval).
  exists d. split; [exact Hd|].
  rewrite Hval, DecimalN.Unsigned.of_to. lia.
Qed.

Lemma append_inj_r (s a b : string) : a +:+ s = b +:+ s -> a = b.
Proof.
  revert b. induction a as [|x a IH]; intros [|y b] Heq.
  - reflexivity.
  - apply (f_equal String.length) in Heq.
    rewrite append_empty_l, append_String in Heq. cbn [String.length] in Heq.
    rewrite string_length_append in Heq. lia.
  - apply (f_equal String.length) in Heq.
    rewrite append_empty_l, append_String in Heq. cbn [String.length] in Heq.
    rewrite string_length_append in Heq. lia.
  - rewrite !append_String in Heq. injection Heq as -> Heq. f_equal. now apply IH.
Qed.

(** X21: two frames of a video never get the same image name: the names
    [mouth_<i>.png] of two different counters [i >= 0] differ; and below
    1000 the counter is written with exactly three digits. *)
Theorem image_names_are_distinct (i j : Z) :
  0 <= i -> 0 <= j ->
  ("mouth_" +:+ format_03d i +:+ ".png" = "mouth_" +:+ format_03d j +:+ ".png" -> i = j)
  /\ (i < 1000 -> String.length (format_03d i) = 3%nat).
Proof.
  intros Hi Hj. split.
  - intros Hname.
    assert (Heq : format_03d i = format_03d j).
    { apply (append_inj_r ".png"). 
      change ("mouth_" +:+ format_03d i +:+ ".png")
        with ("mouth_" +:+ (format_03d i +:+ ".png")) in Hname.
      change ("mouth_" +:+ format_03d j +:+ ".png")
        with ("mouth_" +:+ (format_03d j +:+ ".png")) in Hname.
      rewrite <- (append_empty_l (format_03d i +:+ ".png")).
      rewrite <- (append_empty_l (format_03d j +:+ ".png")).
      repeat (rewrite append_String in Hname; injection Hname as Hname).
      exact Hname. }
    destruct (format_03d_value i Hi) as (di & Hdi & Hvi).
    destruct (format_03d_value j Hj) as (dj & Hdj & Hvj).
    rewrite Heq in Hdi. rewrite Hdj in Hdi. injection Hdi as <-. lia.
  - intros Hlt.
    assert (Hall : forallb (fun k => (String.length (format_03d k) =? 3)%nat)
                     (seqZ 0 1000) = true) by (vm_compute; reflexivity).
    rewrite forallb_forall in Hall.
    apply Nat.eqb_eq, Hall, list_elem_of_In, elem_of_seqZ. lia.
Qed.

(** X21, on the counters 7 and 12. *)
Lemma image_names_of_seven_and_twelve :
  ("mouth_" +:+ format_03d 7 +:+ ".png" = "mouth_" +:+ format_03d 12 +:+ ".png"
   -> 7 = 12)
  /\ (7 < 1000 -> String.length (format_03d 7) = 3%nat).
Proof. apply image_names_are_distinct; lia. Defined.

(** ** More on alignments *)

Lemma length_join_space (l : list string) :
  String.length (join " " l)
  = (list_sum (String.length <$> l) + (List.length l - 1))%nat.
Proof.
  induction l as [|x l IH]; [reflexivity|].
  destruct l as [|y l].
  - cbn. lia.
  - change (join " " (x :: y :: l)) with (x +:+ " " +:+ join " " (y :: l)).
    rewrite !string_length_append, IH. cbn. lia.
Qed.

(** X22: the length of the sentence is the total length of the tokens of the
    records that are not fillers plus one space between two of them. *)
Theorem sentence_length_counts_tokens_and_spaces self records :
  let kept := filter (fun r => ~ Align.is_filler r) records in
  Align.sentence_length (fst (Align.build self records))
  = Ok (list_sum (String.length <$> (Align.token <$> kept))
        + (List.length kept - 1))%nat.
Proof.
  intros kept. unfold Align.sentence_length.
  destruct (build_align_sentence self records) as [_ ->].
  unfold Align.get_sentence. fold (Align.strip records ["sp"; "sil"]).
  rewrite strip_fillers. fold kept.
  now rewrite length_join_space, length_fmap.
Qed.

Lemma member_elem_of (x : string) (items : list string) :
  Align.member x items = true <-> x ∈ items.
Proof.
  unfold Align.member. rewrite existsb_exists. split.
  - intros (y & Hy & Heq). apply String.eqb_eq in Heq as ->. now apply list_elem_of_In.
  - intros Hx. exists x. split; [now apply list_elem_of_In | apply String.eqb_refl].
Qed.

Lemma strip_as_filter (records : list Align.record) (items : list string) :
  Align.strip records items = filter (fun r => Align.token r ∉ items) records.
Proof.
  apply filter_bool_Prop. intros r. rewrite negb_true_iff.
  rewrite <- member_elem_of. now destruct (Align.member (Align.token r) items).
Qed.

(** X23: [strip] keeps, in their order, exactly the records whose token is
    not among the items; stripping what is already stripped changes
    nothing. *)
Theorem strip_removes_listed_tokens (records : list Align.record) (items : list string) :
  (forall r, r ∈ Align.strip records items
             <-> r ∈ records /\ Align.token r ∉ items)
  /\ sublist (Align.strip records items) records
  /\ Align.strip (Align.strip records items) items = Align.strip records items.
Proof.
  split; [|split].
  - intros r. rewrite strip_as_filter, list_elem_of_filter. tauto.
  - rewrite strip_as_filter. apply sublist_filter.
  - rewrite !strip_as_filter. now apply list_filter_filter_l.
Qed.

(** X24: with the default [label_func=None] an alignment cannot be built:
    [build] raises [TypeError]; by then the stripped records and the
    sentence are set, while the label and the padded label are as before. *)
Theorem build_without_label_func self records :
  Align.label_func self = None ->
  snd (Align.build self records) = Raise TypeError
  /\ Align.align (fst (Align.build self records))
     = Some (filter (fun r => ~ Align.is_filler r) records)
  /\ is_Some (Align.sentence (fst (Align.build self records)))
  /\ Align.label (fst (Align.build self records)) = Align.label self
  /\ Align.padded_label (fst (Align.build self records)) = Align.padded_label self.
Proof.
  intros Hnone. unfold Align.build, Align.get_label. cbn. rewrite Hnone. cbn.
  rewrite <- strip_fillers. repeat split; eauto.
Qed.

(** X24, on an object made with the default arguments. *)
Lemma build_with_default_arguments :
  let self := Align.init 32 None in
  let records := [(0, 1, "sp"); (1, 2, "hello")]%float in
  snd (Align.build self records) = Raise TypeError
  /\ Align.align (fst (Align.build self records))
     = Some (filter (fun r => ~ Align.is_filler r) records)
  /\ is_Some (Align.sentence (fst (Align.build self records)))
  /\ Align.label (fst (Align.build self records)) = Align.label self
  /\ Align.padded_label (fst (Align.build self records)) = Align.padded_label self.
Proof.
  exact (build_without_label_func (Align.init 32 None)
           [(0, 1, "sp"); (1, 2, "hello")]%float eq_refl).
Defined.

(** ** More on the mouth crop *)

(** X25: the ratio is computed from the leftmost and the rightmost mouth
    point alone: neither the order of the points, nor the points between the
    two, nor any y coordinate plays a part. *)
Theorem compute_ratio_from_extremes (points : list (Z * Z)) (lo hi : Z) :
  lo ∈ map fst points -> hi ∈ map fst points ->
  (forall x, x ∈ map fst points -> lo <= x <= hi) ->
  Video.compute_ratio points
  = float_truediv (float_of_Z Video.mouth_width)
      (float_of_Z hi * (1 + Video.horizontal_pad)
       - float_of_Z lo * (1 - Video.horizontal_pad))%float.
Proof.
  intros Hlo Hhi Hbetween. unfold Video.compute_ratio.
  destruct (map fst points) as [|x xs]; [now apply elem_of_nil in Hlo|].
  rewrite (np_min_least x xs lo Hlo), (np_max_greatest x xs hi Hhi);
    [reflexivity | |]; intros v Hv; now apply Hbetween.
Qed.

(** X25, on three points given right to left. *)
Lemma compute_ratio_from_extremes_of_three_points :
  Video.compute_ratio [(90, 7); (40, 2); (10, 55)]
  = float_truediv (float_of_Z Video.mouth_width)
      (float_of_Z 90 * (1 + Video.horizontal_pad)
       - float_of_Z 10 * (1 - Video.horizontal_pad))%float.
Proof.
  apply (compute_ratio_from_extremes [(90, 7); (40, 2); (10, 55)] 10 90).
  - cbn. do 2 apply list_elem_of_further. apply list_elem_of_here.
  - cbn. apply list_elem_of_here.
  - cbn. intros x Hx.
    repeat (apply elem_of_cons in Hx as [->|Hx]; [lia|]).
    now apply elem_of_nil in Hx.
Defined.

Lemma slice_bounds_within (n : nat) (start stop : Z) :
  (fst (Np.slice_bounds n start stop) + snd (Np.slice_bounds n start stop) <= n)%nat.
Proof.
  unfold Np.slice_bounds. cbn [fst snd].
  repeat match goal with
         | |- context [?a <? ?b] => destruct (Z.ltb_spec a b)
         end; lia.
Qed.

(** X26: a crop is a window of the resized frame and is never padded: its
    height and width fit into the resized frame from the window's corner,
    the other axes are kept, and its entries are the entries of the resized
    frame from that corner on. *)
Theorem crop_is_window_of_resized
    (imresize : ndarray -> Z * Z -> result ndarray)
    (ratio : float) (frame : ndarray) (centroid : float * float) (img : ndarray) :
  Video.crop_frame imresize ratio frame centroid = Ok img ->
  exists size resized h w rest hn wn t0 l0,
    imresize frame size = Ok resized
    /\ shape resized = h :: w :: rest
    /\ shape img = hn :: wn :: rest
    /\ (t0 + hn <= h)%nat /\ (l0 + wn <= w)%nat
    /\ forall i j idx,
         item img (i :: j :: idx) = item resized ((t0 + i)%nat :: (l0 + j)%nat :: idx).
Proof.
  unfold Video.crop_frame. intros Hcrop.
  apply bind_Ok_inv in Hcrop as (h0 & _ & Hcrop).
  apply bind_Ok_inv in Hcrop as (new_h & _ & Hcrop).
  apply bind_Ok_inv in Hcrop as (w0 & _ & Hcrop).
  apply bind_Ok_inv in Hcrop as (new_w & _ & Hcrop).
  apply bind_Ok_inv in Hcrop as (resized & Hresize & Hcrop).
  apply bind_Ok_inv in Hcrop as (half_w & _ & Hcrop).
  apply bind_Ok_inv in Hcrop as (half_h & _ & Hcrop).
  apply bind_Ok_inv in Hcrop as (mouth_l & _ & Hcrop).
  apply bind_Ok_inv in Hcrop as (mouth_r & _ & Hcrop).
  apply bind_Ok_inv in Hcrop as (mouth_t & _ & Hcrop).
  apply bind_Ok_inv in Hcrop as (mouth_b & _ & Hcrop).
  unfold Np.slice2 in Hcrop.
  destruct (shape resized) as [|h [|w rest]] eqn:Hshape; [discriminate Hcrop..|].
  pose proof (slice_bounds_within h mouth_t mouth_b) as Hh.
  pose proof (slice_bounds_within w mouth_l mouth_r) as Hw.
  destruct (Np.slice_bounds h mouth_t mouth_b) as [t0 hn].
  destruct (Np.slice_bounds w mouth_l mouth_r) as [l0 wn].
  injection Hcrop as <-.
  exists (new_h, new_w), resized, h, w, rest, hn, wn, t0, l0.
  repeat split; auto.
Qed.

(** X26, on the first frame of the clip whose frames all show a face. *)
Lemma crop_is_window_of_resized_first_frame :
  exists img,
    Video.crop_frame Demo.resize 1%float (Demo.frame 1) (50, 50)%float = Ok img
    /\ exists size resized h w rest hn wn t0 l0,
         Demo.resize (Demo.frame 1) size = Ok resized
         /\ shape resized = h :: w :: rest
         /\ shape img = hn :: wn :: rest
         /\ (t0 + hn <= h)%nat /\ (l0 + wn <= w)%nat
         /\ forall i j idx,
              item img (i :: j :: idx)
              = item resized ((t0 + i)%nat :: (l0 + j)%nat :: idx).
Proof.
  assert (Hrun : exists img,
             Video.crop_frame Demo.resize 1%float (Demo.frame 1) (50, 50)%float
             = Ok img)
    by (vm_compute; eauto).
  destruct Hrun as [img Hrun]. exists img. split; [exact Hrun|].
  exact (crop_is_window_of_resized Demo.resize 1%float (Demo.frame 1)
           (50, 50)%float img Hrun).
Defined.
